(** * Round orchestration of the cup game: state machine, RGS session, pick flow

    A shallow embedding of [src/rgs/state.ts] and [src/game/gameRoundHelper.ts].

    - JavaScript numbers are IEEE binary64 values: [PrimFloat.float].
    - The module-level variables of [state.ts] form the record [Session].
    - An [async] function is a tree of synchronous segments separated by
      [Await] nodes ([Async]).  Two interpreters run such trees: [exec]
      answers every await at once (one task at a time), [Loop.step] is an
      event loop in which pointer taps interleave with suspended handlers.
    - Calls to collaborators and console output are recorded in [trace]. *)

From Stdlib Require Import Floats.PrimFloat.
From Stdlib Require Import List String Bool Arith Lia.
Import ListNotations.

Set Implicit Arguments.
Set Warnings "-inexact-float".

(* ================================================================== *)
(** ** Data model *)

(** [GameState] of [rgs/types.ts], as the string literals used in [state.ts]. *)
Inductive GameState : Type :=
| rest
| playing
| awaiting_pick
| resolving.

Definition GameState_eqb (a b : GameState) : bool :=
  match a, b with
  | rest, rest | playing, playing
  | awaiting_pick, awaiting_pick | resolving, resolving => true
  | _, _ => false
  end.

Definition GameState_name (g : GameState) : string :=
  match g with
  | rest => "rest"
  | playing => "playing"
  | awaiting_pick => "awaiting_pick"
  | resolving => "resolving"
  end.

(** [Array.prototype.includes] on a list of states. *)
Definition includes (g : GameState) (l : list GameState) : bool :=
  existsb (GameState_eqb g) l.

Module Types.

(** Modelled from the spec: [rgs/types.ts] is not among the sources.  The
    spec's PlayOutcome carries a payout multiplier that may be absent and an
    opaque round state; [state.ts] reads them as
    [playResponse?.round?.payoutMultiplier] and [playResponse?.round?.state]. *)
Record Round : Type := mkRound {
  payoutMultiplier : option float;
  state : option string
}.

Record PlayResponse : Type := mkPlayResponse {
  round : option Round
}.

(** A property that holds a number, holds [null], or is missing
    ([undefined]). *)
Inductive JsNumber : Type :=
| Num (x : float)
| Null
| Undefined.

(** The value used when the property is an operand of [/]: [null] counts as
    0 and [undefined] as NaN. *)
Definition toNumber (v : JsNumber) : float :=
  match v with
  | Num x => x
  | Null => 0%float
  | Undefined => nan
  end.

(** [v != null], which is false for [null] and for [undefined]. *)
Definition notNull (v : JsNumber) : bool :=
  match v with
  | Num _ => true
  | Null | Undefined => false
  end.

(** Modelled from the spec: the spec's FinalizeOutcome holds the confirmed
    balance; [state.ts] reads it as [confirmation.balance.amount] (in
    millionths) and tests it against [null], so the amount is a number that
    may be [null] or missing. *)
Record Balance : Type := mkBalance {
  amount : JsNumber
}.

Record EndRoundResponse : Type := mkEndRoundResponse {
  balance : Balance
}.

End Types.

Import Types.

(** Values that are thrown.  [Error] is [new Error(message)] raised by
    [state.ts]; [ApiRejection] is whatever the session client rejects with;
    [TypeError] is a property read on [undefined]. *)
Inductive JsError : Type :=
| Error (message : string)
| ApiRejection (reason : string)
| TypeError (message : string).

(** The module-level variables of [state.ts]. *)
Record Session : Type := mkSession {
  gamestate : GameState;
  response : option PlayResponse;
  endRoundResponse : option EndRoundResponse;
  balance : float;
  lastWin : float
}.

Definition initialSession : Session :=
  mkSession rest None None 1000%float 0%float.

(** Console output and calls to collaborators, in program order.  [Selected]
    is a history mark placed where the tap handler assigns [chosenIdx]. *)
Inductive Event : Type :=
| WarnInvalidTransition (from to : GameState)
| LogTransition (from to : GameState)
| LogBalanceDeducted (betAmount newBalance : float)
| LogRoundState (s : string)
| LogLastWin (w : float)
| LogActiveBet
| ErrorRoundFailed (e : JsError)
| LogFinalized (newBalance : float)
| ErrorFinalize (e : JsError)
| CallPlayRound (betAmount : float)
| CallEndRound
| CallLiftCup (cup : nat)
| CallLowerCup (cup : nat)
| DiamondShown (cup : nat)
| DiamondHidden
| CallOnBalanceUpdate (amount : JsNumber)
| CallShowWinModal (winAmount : float)
| CallLayout
| CallOnRest
| Selected (idx : nat).

(** Everything the round touches: the session of [state.ts], the cup sprites
    and the diamond, the closure variable [chosenIdx] of one call of
    [handleGameRound], whether its pick promise has been resolved, the values
    [Math.floor(Math.random() * 3)] still to come, and the trace. *)
Record Machine : Type := mkMachine {
  rgs : Session;
  cupInteractive : list bool;
  diamondVisible : bool;
  chosenIdx : option nat;
  pickResolved : bool;
  entropy : list nat;
  trace : list Event
}.

Definition with_rgs (f : Session -> Session) (m : Machine) : Machine :=
  match m with
  | mkMachine s cups dia chosen res ent tr =>
      mkMachine (f s) cups dia chosen res ent tr
  end.

Definition emit (ev : Event) (m : Machine) : Machine :=
  match m with
  | mkMachine s cups dia chosen res ent tr =>
      mkMachine s cups dia chosen res ent (tr ++ [ev])
  end.

Definition set_gamestate (g : GameState) (s : Session) : Session :=
  match s with
  | mkSession _ rsp ers bal win => mkSession g rsp ers bal win
  end.

Definition set_balance (b : float) (s : Session) : Session :=
  match s with
  | mkSession g rsp ers _ win => mkSession g rsp ers b win
  end.

Definition set_lastWin (w : float) (s : Session) : Session :=
  match s with
  | mkSession g rsp ers bal _ => mkSession g rsp ers bal w
  end.

Definition set_response (r : option PlayResponse) (s : Session) : Session :=
  match s with
  | mkSession g _ ers bal win => mkSession g r ers bal win
  end.

Definition set_endRoundResponse (r : option EndRoundResponse) (s : Session)
  : Session :=
  match s with
  | mkSession g rsp _ bal win => mkSession g rsp r bal win
  end.

(* ================================================================== *)
(** ** Asynchronous computations *)

(** A settled promise. *)
Inductive Settled (X : Type) : Type :=
| Fulfilled (x : X)
| Rejected (e : JsError).

Arguments Rejected {X} e.

(** What an [await] can be suspended on ([PickPromise] is the promise that
    [handleGameRound] builds around the tap listeners), and the type of the
    value it resolves to. *)
Inductive Wait : Type :=
| ImportRgs
| PlayRoundCall (betAmount : float)
| EndRoundCall
| LiftCup (cup : nat)
| LowerCup (cup : nat)
| Timeout (ms : nat)
| PickPromise.

Definition Answer (w : Wait) : Type :=
  match w with
  | PlayRoundCall _ => PlayResponse
  | EndRoundCall => EndRoundResponse
  | _ => unit
  end.

(** [Spin] is a synchronous loop that has used up all the random values it
    was given without leaving. *)
Inductive Async (A : Type) : Type :=
| Ret (a : A)
| Throw (e : JsError)
| Spin
| Get (k : Machine -> Async A)
| Put (m : Machine) (k : Async A)
| Await (w : Wait) (k : Settled (Answer w) -> Async A).

Arguments Throw {A} e.
Arguments Spin {A}.
Arguments Await {A} w k.

Fixpoint bind {A B : Type} (t : Async A) (f : A -> Async B) : Async B :=
  match t with
  | Ret a => f a
  | Throw e => Throw e
  | Spin => Spin
  | Get k => Get (fun m => bind (k m) f)
  | Put m k => Put m (bind k f)
  | Await w k => Await w (fun s => bind (k s) f)
  end.

(** [try { t } catch (e) { h e }]. *)
Fixpoint tryCatch {A : Type} (t : Async A) (h : JsError -> Async A) : Async A :=
  match t with
  | Ret a => Ret a
  | Throw e => h e
  | Spin => Spin
  | Get k => Get (fun m => tryCatch (k m) h)
  | Put m k => Put m (tryCatch k h)
  | Await w k => Await w (fun s => tryCatch (k s) h)
  end.

Declare Scope async_scope.
Delimit Scope async_scope with async.
Notation "x <- c1 ;; c2" := (bind c1 (fun x => c2))
  (at level 61, c1 at next level, right associativity) : async_scope.
Notation "c1 ;; c2" := (bind c1 (fun _ => c2))
  (at level 61, right associativity) : async_scope.
Open Scope async_scope.

Definition modify (f : Machine -> Machine) : Async unit :=
  Get (fun m => Put (f m) (Ret tt)).

Definition reads {A : Type} (f : Machine -> A) : Async A :=
  Get (fun m => Ret (f m)).

Definition console (ev : Event) : Async unit := modify (emit ev).

(** [await p]: the value of [p], or its rejection thrown at the await. *)
Definition await (w : Wait) : Async (Answer w) :=
  Await w (fun s => match s with
                    | Fulfilled x => Ret x
                    | Rejected e => Throw e
                    end).

(** What the collaborators answer.  Lifting, lowering, timers and the dynamic
    import always fulfil; the two network calls settle as the server decides. *)
Record Env : Type := mkEnv {
  playRoundResult : float -> Settled PlayResponse;
  endRoundResult : Settled EndRoundResponse
}.

Definition settle (env : Env) (w : Wait) : Settled (Answer w) :=
  match w return Settled (Answer w) with
  | ImportRgs => Fulfilled tt
  | PlayRoundCall betAmount => playRoundResult env betAmount
  | EndRoundCall => endRoundResult env
  | LiftCup _ => Fulfilled tt
  | LowerCup _ => Fulfilled tt
  | Timeout _ => Fulfilled tt
  | PickPromise => Fulfilled tt
  end.

Inductive Outcome (A : Type) : Type :=
| Returned (a : A)
| Threw (e : JsError)
| Spinning
| Pending.

Arguments Threw {A} e.
Arguments Spinning {A}.
Arguments Pending {A}.

(** The result of running a task alone: how it ended ([Pending]: its promise
    is never settled; [exec] itself never answers that), the machine it left,
    and each suspension in order: what was awaited, on which machine. *)
Record Run (A : Type) : Type := mkRun {
  outcome : Outcome A;
  final : Machine;
  awaited : list (Wait * Machine)
}.

Definition suspended_at {A : Type} (w : Wait) (m : Machine) (r : Run A)
  : Run A :=
  mkRun (outcome r) (final r) ((w, m) :: awaited r).

Fixpoint exec (env : Env) {A : Type} (t : Async A) (m : Machine) : Run A :=
  match t with
  | Ret a => mkRun (Returned a) m []
  | Throw e => mkRun (Threw e) m []
  | Spin => mkRun Spinning m []
  | Get k => exec env (k m) m
  | Put m' k => exec env k m'
  | Await w k => suspended_at w m (exec env (k (settle env w)) m)
  end.

(* ================================================================== *)
(** ** [rgs/state.ts] *)

Section State.

(** [isActiveBetError] of [rgs/api.ts], which is not among the sources: a
    pure classification of thrown values. *)
Variable isActiveBetError : JsError -> bool.

Definition getGameState : Async GameState := reads (fun m => gamestate (rgs m)).
Definition getBalance : Async float := reads (fun m => balance (rgs m)).
Definition getLastWin : Async float := reads (fun m => lastWin (rgs m)).
Definition getLastEndRoundResponse : Async (option EndRoundResponse) :=
  reads (fun m => endRoundResponse (rgs m)).

Definition validTransitions (g : GameState) : list GameState :=
  match g with
  | rest => [playing]
  | playing => [awaiting_pick; rest]
  | awaiting_pick => [resolving]
  | resolving => [rest]
  end.

Definition setGameState (newState : GameState) : Async unit :=
  g <- getGameState ;;
  if negb (includes newState (validTransitions g)) then
    console (WarnInvalidTransition g newState)
  else
    console (LogTransition g newState) ;;
    modify (with_rgs (set_gamestate newState)).

Definition canAdjustBet : Async bool :=
  g <- getGameState ;; Ret (GameState_eqb g rest).

Definition canStartPlay : Async bool :=
  g <- getGameState ;; Ret (GameState_eqb g rest).

Definition canPickCup : Async bool :=
  g <- getGameState ;; Ret (GameState_eqb g awaiting_pick).

Definition executeGameRound (betAmount : float) : Async PlayResponse :=
  tryCatch
    (ok <- canStartPlay ;;
     (if negb ok then
        g <- getGameState ;;
        Throw (Error ("Cannot start play from state: " ++ GameState_name g))
      else Ret tt) ;;
     modify (with_rgs (fun s => set_balance (balance s - betAmount)%float s)) ;;
     b <- getBalance ;;
     console (LogBalanceDeducted betAmount b) ;;
     setGameState playing ;;
     console (CallPlayRound betAmount) ;;
     playResponse <- await (PlayRoundCall betAmount) ;;
     modify (with_rgs (set_response (Some playResponse))) ;;
     modify (with_rgs (set_endRoundResponse None)) ;;
     (match round playResponse with
      | Some r =>
          match payoutMultiplier r with
          | Some pm => modify (with_rgs (set_lastWin (pm * betAmount)%float))
          | None => modify (with_rgs (set_lastWin 0%float))
          end
      | None => modify (with_rgs (set_lastWin 0%float))
      end) ;;
     (match round playResponse with
      | Some r =>
          match state r with
          | Some st => if String.eqb st "" then Ret tt
                       else console (LogRoundState st)
          | None => Ret tt
          end
      | None => Ret tt
      end) ;;
     w <- getLastWin ;;
     console (LogLastWin w) ;;
     Ret playResponse)
    (fun error =>
       if isActiveBetError error then
         console LogActiveBet ;;
         Throw error
       else
         console (ErrorRoundFailed error) ;;
         setGameState rest ;;
         Throw error).

Definition finalizeRound : Async EndRoundResponse :=
  tryCatch
    (console CallEndRound ;;
     confirmation <- await EndRoundCall ;;
     modify (with_rgs
               (set_balance
                  (toNumber (amount (Types.balance confirmation)) / 1000000)%float)) ;;
     modify (with_rgs (set_endRoundResponse (Some confirmation))) ;;
     (if notNull (amount (Types.balance confirmation)) then setGameState rest
      else Ret tt) ;;
     b <- getBalance ;;
     console (LogFinalized b) ;;
     Ret confirmation)
    (fun error =>
       console (ErrorFinalize error) ;;
       Throw error).

Definition setAwaitingPick : Async unit := setGameState awaiting_pick.
Definition startResolving : Async unit := setGameState resolving.
Definition handleLoss : Async unit := setGameState rest.

End State.

(* ================================================================== *)
(** ** [game/gameRoundHelper.ts] *)

Definition set_cupInteractive (l : list bool) (m : Machine) : Machine :=
  match m with
  | mkMachine s _ dia chosen res ent tr => mkMachine s l dia chosen res ent tr
  end.

Definition set_diamondVisible (b : bool) (m : Machine) : Machine :=
  match m with
  | mkMachine s cups _ chosen res ent tr => mkMachine s cups b chosen res ent tr
  end.

Definition set_chosenIdx (c : option nat) (m : Machine) : Machine :=
  match m with
  | mkMachine s cups dia _ res ent tr => mkMachine s cups dia c res ent tr
  end.

Definition set_pickResolved (b : bool) (m : Machine) : Machine :=
  match m with
  | mkMachine s cups dia chosen _ ent tr => mkMachine s cups dia chosen b ent tr
  end.

Definition set_entropy (l : list nat) (m : Machine) : Machine :=
  match m with
  | mkMachine s cups dia chosen res _ tr => mkMachine s cups dia chosen res l tr
  end.

(** The options of [handleGameRound] that steer it.  The sprites live in the
    machine; [liftCup], [lowerCup], [onBalanceUpdate] and [showWinModal] are
    the caller's and appear as calls in the trace.  [onRest] is the caller's
    too: the call is traced and [onRest] says what it does to the session. *)
Record GameRoundOptions : Type := mkOptions {
  hasLayout : bool;
  hasShowWinModal : bool;
  skipAnimation : bool;
  forceEndRound : bool;
  onRest : Session -> Session
}.

(** [playResponse && playResponse.round && playResponse.round.payoutMultiplier > 0] *)
Definition isWin (playResponse : option PlayResponse) : bool :=
  match playResponse with
  | Some p =>
      match round p with
      | Some r =>
          match payoutMultiplier r with
          | Some pm => (0 <? pm)%float
          | None => false
          end
      | None => false
      end
  | None => false
  end.

(** [while (otherIdx === idx) otherIdx = Math.floor(Math.random() * 3)], on
    the random values still to come; [None] when they run out inside the loop. *)
Fixpoint resample (idx otherIdx : nat) (draws : list nat) {struct draws}
  : option (nat * list nat) :=
  if otherIdx =? idx then
    match draws with
    | [] => None
    | d :: ds => resample idx d ds
    end
  else Some (otherIdx, draws).

(** [let otherIdx = Math.floor(Math.random() * 3); while ...] *)
Definition pickOther (idx : nat) : Async nat :=
  Get (fun m =>
         match entropy m with
         | [] => Spin
         | d :: ds =>
             match resample idx d ds with
             | Some (otherIdx, later) => Put (set_entropy later m) (Ret otherIdx)
             | None => Spin
             end
         end).

Section GameRound.

Variable isActiveBetError : JsError -> bool.
Variable opts : GameRoundOptions.

(** Lines 43-110: start the round, make the cups clickable, and install
    fresh [pointertap] listeners around a fresh [chosenIdx].  Returns the
    locals [playResponse] and [activeBetError]. *)
Definition handleGameRound_setup : Async (option PlayResponse * bool) :=
  await ImportRgs ;;
  started <-
    (if skipAnimation opts then Ret (None, false)
     else
       tryCatch
         (playResponse <- executeGameRound isActiveBetError 1%float ;;
          Ret (Some playResponse, false))
         (fun err =>
            if isActiveBetError err then Ret (None, true)
            else Throw err)) ;;
  modify (fun m => set_chosenIdx None m) ;;
  modify (fun m => set_cupInteractive (map (fun _ => true) (cupInteractive m)) m) ;;
  modify (set_pickResolved false) ;;
  Ret started.

(** Lines 111-197: the [pointertap] listener of cup [idx]. *)
Definition pointertap (playResponse : option PlayResponse)
           (activeBetError : bool) (idx : nat) : Async unit :=
  chosen <- reads chosenIdx ;;
  match chosen with
  | Some _ => Ret tt
  | None =>
      modify (fun m => emit (Selected idx) (set_chosenIdx (Some idx) m)) ;;
      modify (fun m =>
                set_cupInteractive (map (fun _ => false) (cupInteractive m)) m) ;;
      (if activeBetError || forceEndRound opts then
         finalizeRound ;;
         last <- getLastEndRoundResponse ;;
         console (CallOnBalanceUpdate
                    match last with
                    | Some c => amount (Types.balance c)
                    | None => Num 0%float
                    end)
       else
         console (CallLiftCup idx) ;;
         await (LiftCup idx) ;;
         if isWin playResponse then
           modify (set_diamondVisible true) ;;
           console (DiamondShown idx) ;;
           await (Timeout 800) ;;
           console (CallLowerCup idx) ;;
           await (LowerCup idx) ;;
           modify (set_diamondVisible false) ;;
           console DiamondHidden ;;
           endRoundResult <- finalizeRound ;;
           console (CallOnBalanceUpdate (amount (Types.balance endRoundResult))) ;;
           (if hasShowWinModal opts && isWin playResponse then
              await ImportRgs ;;
              winAmount <- getLastWin ;;
              console (CallShowWinModal winAmount)
            else Ret tt)
         else
           await (Timeout 600) ;;
           console (CallLowerCup idx) ;;
           await (LowerCup idx) ;;
           otherIdx <- pickOther idx ;;
           cups <- reads (fun m => List.length (cupInteractive m)) ;;
           console (CallLiftCup otherIdx) ;;
           await (LiftCup otherIdx) ;;
           modify (set_diamondVisible true) ;;
           (if otherIdx <? cups then Ret tt
            else Throw (TypeError "Cannot read properties of undefined")) ;;
           console (DiamondShown otherIdx) ;;
           await (Timeout 800) ;;
           console (CallLowerCup otherIdx) ;;
           await (LowerCup otherIdx) ;;
           modify (set_diamondVisible false) ;;
           console DiamondHidden) ;;
      (if hasLayout opts then console CallLayout else Ret tt) ;;
      modify (set_pickResolved true)
  end.

(** Line 200, once the pick promise is resolved. *)
Definition handleGameRound_done : Async unit :=
  console CallOnRest ;;
  modify (with_rgs (onRest opts)).

(** The pointer taps of a round, each listener run to its end before the
    next tap is delivered.  A tap outside the sprites reaches no listener; a
    listener that throws is an unhandled rejection and resolves nothing. *)
Fixpoint dispatchTaps (env : Env) (listener : nat -> Async unit)
         (taps : list nat) (m : Machine) : Run unit :=
  match taps with
  | [] => mkRun (Returned tt) m []
  | idx :: later =>
      if idx <? List.length (cupInteractive m) then
        let r := exec env (listener idx) m in
        match outcome r with
        | Spinning => r
        | _ =>
            let r' := dispatchTaps env listener later (final r) in
            mkRun (outcome r') (final r') (awaited r ++ awaited r')
        end
      else dispatchTaps env listener later m
  end.

(** [handleGameRound(opts)] against an environment and the taps of the
    player: fulfilled ([Returned]), rejected ([Threw]), or never settled. *)
Definition handleGameRound (env : Env) (taps : list nat) (m : Machine)
  : Run unit :=
  let r0 := exec env handleGameRound_setup m in
  match outcome r0 with
  | Returned (playResponse, activeBetError) =>
      let r1 := dispatchTaps env (pointertap playResponse activeBetError)
                             taps (final r0) in
      let waits := awaited r0 ++ (PickPromise, final r0) :: awaited r1 in
      match outcome r1 with
      | Spinning => mkRun Spinning (final r1) waits
      | _ =>
          if pickResolved (final r1) then
            let r2 := exec env handleGameRound_done (final r1) in
            mkRun (outcome r2) (final r2) (waits ++ awaited r2)
          else mkRun Pending (final r1) waits
      end
  | Threw e => mkRun (Threw e) (final r0) (awaited r0)
  | Spinning => mkRun Spinning (final r0) (awaited r0)
  | Pending => mkRun Pending (final r0) (awaited r0)
  end.

End GameRound.

(* ================================================================== *)
(** ** The event loop: taps interleaved with suspended listeners *)

Module Loop.

(** A listener suspended at an [await], with the rest of its body. *)
Inductive Task : Type :=
| Parked (w : Wait) (k : Settled (Answer w) -> Async unit).

Inductive Pause : Type :=
| Ended
| Suspended (t : Task)
| Hung.

(** Run a task up to its first suspension. *)
Fixpoint advance (t : Async unit) (m : Machine) : Machine * Pause :=
  match t with
  | Ret _ => (m, Ended)
  | Throw _ => (m, Ended)
  | Spin => (m, Hung)
  | Get k => advance (k m) m
  | Put m' k => advance k m'
  | Await w k => (m, Suspended (Parked w k))
  end.

Record State : Type := mkState {
  mach : Machine;
  parked : list Task;
  hung : bool
}.

(** One turn of the loop: a tap on cup [idx] is delivered, or the promise
    that the [j]-th suspended listener waits for settles.  A tap is delivered
    to the listener of its cup whether or not the cup is still switched on:
    only the listener's own test of [chosenIdx] can turn it away. *)
Inductive Turn : Type :=
| Tap (idx : nat)
| Wake (j : nat).

Fixpoint remove_nth {A : Type} (j : nat) (l : list A) : list A :=
  match l, j with
  | [], _ => []
  | _ :: l', O => l'
  | x :: l', S j' => x :: remove_nth j' l'
  end.

Definition resume (t : Async unit) (others : list Task) (m : Machine) : State :=
  match advance t m with
  | (m', Ended) => mkState m' others false
  | (m', Suspended task) => mkState m' (others ++ [task]) false
  | (m', Hung) => mkState m' others true
  end.

Definition step (env : Env) (listener : nat -> Async unit) (turn : Turn)
           (st : State) : State :=
  if hung st then st
  else
    match turn with
    | Tap idx =>
        if idx <? List.length (cupInteractive (mach st)) then
          resume (listener idx) (parked st) (mach st)
        else st
    | Wake j =>
        match nth_error (parked st) j with
        | Some (Parked w k) =>
            resume (k (settle env w)) (remove_nth j (parked st)) (mach st)
        | None => st
        end
    end.

Definition run (env : Env) (listener : nat -> Async unit)
           (turns : list Turn) (st : State) : State :=
  fold_left (fun s t => step env listener t s) turns st.

(** The loop when the listeners have just been installed. *)
Definition listening (m : Machine) : State := mkState m [] false.

End Loop.

(** The selections that were accepted, oldest first. *)
Fixpoint selections (tr : list Event) : list nat :=
  match tr with
  | [] => []
  | Selected idx :: tr' => idx :: selections tr'
  | _ :: tr' => selections tr'
  end.

(** How often [finalizeRound] reached the session client's end-round call. *)
Fixpoint finalizeCalls (tr : list Event) : nat :=
  match tr with
  | [] => 0
  | CallEndRound :: tr' => S (finalizeCalls tr')
  | _ :: tr' => finalizeCalls tr'
  end.

(** The cups under which the diamond was shown, oldest first. *)
Fixpoint reveals (tr : list Event) : list nat :=
  match tr with
  | [] => []
  | DiamondShown cup :: tr' => cup :: reveals tr'
  | _ :: tr' => reveals tr'
  end.

(** Whether an event belongs to the container-reveal animation. *)
Definition isAnimation (ev : Event) : bool :=
  match ev with
  | CallLiftCup _ | CallLowerCup _ | DiamondShown _ | DiamondHidden => true
  | _ => false
  end.

(** The win amounts passed to [showWinModal]. *)
Fixpoint winReports (tr : list Event) : list float :=
  match tr with
  | [] => []
  | CallShowWinModal w :: tr' => w :: winReports tr'
  | _ :: tr' => winReports tr'
  end.

(** A sequence of transition requests. *)
Fixpoint requestAll (reqs : list GameState) : Async unit :=
  match reqs with
  | [] => Ret tt
  | g :: later => setGameState g ;; requestAll later
  end.

(** The transition table as the specification draws it. *)
Inductive TableEdge : GameState -> GameState -> Prop :=
| edge_rest_playing : TableEdge rest playing
| edge_playing_awaiting : TableEdge playing awaiting_pick
| edge_playing_rest : TableEdge playing rest
| edge_awaiting_resolving : TableEdge awaiting_pick resolving
| edge_resolving_rest : TableEdge resolving rest.

(** The phases the table leads to from [rest]. *)
Inductive Reachable : GameState -> Prop :=
| reach_initial : Reachable rest
| reach_edge (g g' : GameState) : Reachable g -> TableEdge g g' -> Reachable g'.

(** A task maintains [P]: each write takes a machine that satisfies [P] to
    one that does, on whatever machine the task is resumed after a
    suspension. *)
Section Keeps.

Variable P : Machine -> Prop.

Inductive Keeps {A : Type} : Machine -> Async A -> Prop :=
| K_ret (m : Machine) (a : A) : Keeps m (Ret a)
| K_throw (m : Machine) (e : JsError) : Keeps m (Throw e)
| K_spin (m : Machine) : Keeps m Spin
| K_get (m : Machine) (k : Machine -> Async A) :
    Keeps m (k m) -> Keeps m (Get k)
| K_put (m m' : Machine) (k : Async A) :
    (P m -> P m') -> Keeps m' k -> Keeps m (Put m' k)
| K_await (m : Machine) (w : Wait) (k : Settled (Answer w) -> Async A) :
    (forall s m2, Keeps m2 (k s)) -> Keeps m (Await w k).

End Keeps.

(** The phase at each suspension of a run. *)
Definition phasesAwaited {A : Type} (r : Run A) : list (Wait * GameState) :=
  map (fun s => (fst s, gamestate (rgs (snd s)))) (awaited r).

(** The phase in which a fulfilled [finalizeRound] leaves a round that was
    in [playing], and what it logs on the way: the transition is requested
    only for an amount that is not [null]. *)
Definition settledPhase (c : EndRoundResponse) : GameState :=
  if notNull (amount (Types.balance c)) then rest else playing.

Definition settledLog (c : EndRoundResponse) : list Event :=
  if notNull (amount (Types.balance c)) then [LogTransition playing rest]
  else [].

(** What [executeGameRound] stores in [lastWin] for a response. *)
Definition lastWinOf (betAmount : float) (p : PlayResponse) : float :=
  match round p with
  | Some r =>
      match payoutMultiplier r with
      | Some pm => (pm * betAmount)%float
      | None => 0%float
      end
  | None => 0%float
  end.

(** What a successful [executeGameRound] writes to the trace, from a balance
    of [b]. *)
Definition startTrace (betAmount b : float) (p : PlayResponse) : list Event :=
  [LogBalanceDeducted betAmount (b - betAmount)%float;
   LogTransition rest playing;
   CallPlayRound betAmount] ++
  match round p with
  | Some r =>
      match state r with
      | Some st => if String.eqb st "" then [] else [LogRoundState st]
      | None => []
      end
  | None => []
  end ++
  [LogLastWin (lastWinOf betAmount p)].

(** No tap has been accepted since the selections were [before], or exactly
    one has and it is the one in [chosenIdx]. *)
Definition oneSelection (before : list nat) (m : Machine) : Prop :=
  match chosenIdx m with
  | None => selections (trace m) = before
  | Some idx => selections (trace m) = before ++ [idx]
  end.

(** The tap on [idx] has been accepted and is the only one. *)
Definition selected (before : list nat) (idx : nat) (m : Machine) : Prop :=
  chosenIdx m = Some idx /\ selections (trace m) = before ++ [idx].

(** Every cup is switched off. *)
Definition cupsOff (m : Machine) : Prop :=
  Forall (fun b => b = false) (cupInteractive m).

(** The phase is one of the two that the orchestrated flow uses. *)
Definition playingOrRest (m : Machine) : Prop :=
  gamestate (rgs m) = playing \/ gamestate (rgs m) = rest.

(** Whether an event is the mark of an accepted selection. *)
Definition isSelected (ev : Event) : bool :=
  match ev with
  | Selected _ => true
  | _ => false
  end.

(** [P] survives every write that the tap listener can make. *)
Record Stable (P : Machine -> Prop) : Prop := mkStable {
  stable_accept : forall idx m,
      chosenIdx m = None -> P m ->
      P (emit (Selected idx) (set_chosenIdx (Some idx) m));
  stable_disable : forall m,
      P m -> P (set_cupInteractive (map (fun _ => false) (cupInteractive m)) m);
  stable_emit : forall ev m, isSelected ev = false -> P m -> P (emit ev m);
  stable_balance : forall b m, P m -> P (with_rgs (set_balance b) m);
  stable_confirmation : forall c m,
      P m -> P (with_rgs (set_endRoundResponse c) m);
  stable_rest : forall m, P m -> P (with_rgs (set_gamestate rest) m);
  stable_diamond : forall b m, P m -> P (set_diamondVisible b m);
  stable_entropy : forall l m, P m -> P (set_entropy l m);
  stable_resolved : forall b m, P m -> P (set_pickResolved b m)
}.

(** Every suspended listener maintains [P] from wherever it is resumed. *)
Definition tasksKeep (P : Machine -> Prop) (tasks : list Loop.Task) : Prop :=
  Forall (fun task =>
            match task with
            | Loop.Parked w k => forall s m2, Keeps P m2 (k s)
            end) tasks.

(** Sample inputs: the reference game of three cups before its first round,
    a session client that classifies one rejection as an open bet, and server
    answers for a win of 0.6, a loss, and a confirmed balance of 5. *)
Definition initialMachine : Machine :=
  mkMachine initialSession [false; false; false] false None false [] [].

Definition inPhase (g : GameState) (m : Machine) : Machine :=
  with_rgs (set_gamestate g) m.

Definition withEntropy (draws : list nat) (m : Machine) : Machine :=
  set_entropy draws m.

Definition sampleIsActiveBetError (e : JsError) : bool :=
  match e with
  | ApiRejection reason => String.eqb reason "ERR_IPB"%string
  | _ => false
  end.

Definition winResponse : PlayResponse :=
  mkPlayResponse (Some (mkRound (Some 0.6%float) (Some "win"%string))).

Definition lossResponse : PlayResponse :=
  mkPlayResponse (Some (mkRound (Some 0%float) None)).

Definition confirmation5 : EndRoundResponse :=
  mkEndRoundResponse (mkBalance (Num 5000000%float)).

(** A confirmation whose amount is [null], and a server that answers the
    end-round call with it. *)
Definition confirmationNull : EndRoundResponse :=
  mkEndRoundResponse (mkBalance Null).

Definition serverConfirmsNull : Env :=
  mkEnv (fun _ => Fulfilled winResponse) (Fulfilled confirmationNull).

Definition serverWins : Env :=
  mkEnv (fun _ => Fulfilled winResponse) (Fulfilled confirmation5).

Definition serverLoses : Env :=
  mkEnv (fun _ => Fulfilled lossResponse) (Fulfilled confirmation5).

Definition serverHasOpenBet : Env :=
  mkEnv (fun _ => Rejected (ApiRejection "ERR_IPB"%string)) (Fulfilled confirmation5).

Definition serverDown : Env :=
  mkEnv (fun _ => Rejected (ApiRejection "ECONNRESET"%string))
        (Rejected (ApiRejection "ECONNRESET"%string)).

Definition plainOptions : GameRoundOptions :=
  mkOptions true true false false (fun s => s).

(** Options of a caller that skips the shuffle, and of one that forces the
    round to end. *)
Definition skippingOptions : GameRoundOptions :=
  mkOptions true true true false (fun s => s).

Definition forcedOptions : GameRoundOptions :=
  mkOptions true true false true (fun s => s).

(** A server that starts winning rounds but fails to end them. *)
Definition serverCannotEnd : Env :=
  mkEnv (fun _ => Fulfilled winResponse)
        (Rejected (ApiRejection "ECONNRESET"%string)).

(* ================================================================== *)
(** ** Display objects shared by the two UI modules *)

(** The fields of a pixi [Container] or [Sprite] that the UI code writes,
    each as a plain property; [listeners] holds the names of the events that
    have a listener.  The theorems speak of [eventMode] only where the code
    assigns it after [interactive], or does not assign [interactive] at all,
    so they do not depend on pixi deriving one from the other. *)
Record Control : Type := mkControl {
  eventMode : string;
  cursor : string;
  alpha : float;
  interactive : bool;
  listeners : list string;
  scale : float * float
}.

Definition set_eventMode (v : string) (c : Control) : Control :=
  match c with
  | mkControl _ cur al int ls sc => mkControl v cur al int ls sc
  end.

Definition set_cursor (v : string) (c : Control) : Control :=
  match c with
  | mkControl em _ al int ls sc => mkControl em v al int ls sc
  end.

Definition set_alpha (v : float) (c : Control) : Control :=
  match c with
  | mkControl em cur _ int ls sc => mkControl em cur v int ls sc
  end.

Definition set_interactive (v : bool) (c : Control) : Control :=
  match c with
  | mkControl em cur al _ ls sc => mkControl em cur al v ls sc
  end.

Definition set_scale (x y : float) (c : Control) : Control :=
  match c with
  | mkControl em cur al int ls _ => mkControl em cur al int ls (x, y)
  end.

(** [c.removeAllListeners(event)]; without an argument every listener goes. *)
Definition removeAllListeners (event : option string) (c : Control) : Control :=
  match c with
  | mkControl em cur al int ls sc =>
      mkControl em cur al int
                match event with
                | Some name => filter (fun n => negb (String.eqb n name)) ls
                | None => []
                end
                sc
  end.

(** [getLastResponse] of [state.ts]. *)
Definition getLastResponse : Async (option PlayResponse) :=
  reads (fun m => response (rgs m)).

(** A call whose result is not used. *)
Definition discard {A : Type} (t : Async A) : Async unit := t ;; Ret tt.

(** Resume a suspended task alone, with the answer of the environment. *)
Definition resumeAlone (env : Env) (task : Loop.Task) (m : Machine) : Run unit :=
  match task with
  | Loop.Parked w k => exec env (k (settle env w)) m
  end.

(* ================================================================== *)
(** ** [ui/stateManager.ts] *)

Module StateManager.

Record UIComponents : Type := mkUIComponents {
  betMinusButton : Control;
  betPlusButton : Control;
  playButton : Control;
  cupSprites : list Control
}.

(** The values printed by the [console.log] that ends [updateUIStates]. *)
Record UiLog : Type := mkUiLog {
  gameState : GameState;
  betEnabled : bool;
  playEnabled : bool;
  cupsEnabled : bool
}.

Definition setBetButtonsEnabled (minusButton plusButton : Control)
           (enabled : bool) : Control * Control :=
  let each (button : Control) :=
    set_alpha (if enabled then 1.0%float else 0.5%float)
      (set_cursor (if enabled then "pointer" else "default")
         (set_eventMode (if enabled then "static" else "none") button)) in
  (each minusButton, each plusButton).

Definition setPlayButtonEnabled (playButton : Control) (enabled : bool)
  : Control :=
  set_alpha (if enabled then 1.0%float else 0.5%float)
    (set_cursor (if enabled then "pointer" else "default")
       (set_eventMode (if enabled then "static" else "none") playButton)).

Definition setCupsEnabled (cupSprites : list Control) (enabled : bool)
  : list Control :=
  map (fun cup =>
         let cup := set_eventMode (if enabled then "static" else "none") cup in
         let cup := set_cursor (if enabled then "pointer" else "default") cup in
         let cup := set_interactive enabled cup in
         if negb enabled then
           set_scale 1%float 1%float
             (removeAllListeners (Some "pointerout"%string)
                (removeAllListeners (Some "pointerover"%string) cup))
         else cup)
      cupSprites.

(** The components are passed in and handed back; the session is read
    through the getters of [state.ts]. *)
Definition updateUIStates (components : UIComponents)
  : Async (UIComponents * UiLog) :=
  gameState <- getGameState ;;
  betEnabled <- canAdjustBet ;;
  let buttons := setBetButtonsEnabled (betMinusButton components)
                                      (betPlusButton components) betEnabled in
  playEnabled <- canStartPlay ;;
  let play := setPlayButtonEnabled (playButton components) playEnabled in
  cupsEnabled <- canPickCup ;;
  let cups := setCupsEnabled (cupSprites components) cupsEnabled in
  Ret (mkUIComponents (fst buttons) (snd buttons) play cups,
       mkUiLog gameState betEnabled playEnabled cupsEnabled).

End StateManager.

(* ================================================================== *)
(** ** The UI game control helper ([unnamed/part_000]) *)

Module GameControl.

(** [GameControls]: every group may be missing, and an entry of a group is
    a control or a value that the test [if (control)] skips ([null] or
    [undefined]); entries of any other kind are outside the declared type
    [Container[]] and outside this model. *)
Record GameControls : Type := mkGameControls {
  betButtons : option (list (option Control));
  playButton : option Control;
  cups : option (list (option Control))
}.

(** The module-level variables [currentControls] and [getCurrentGameState]
    (which is [undefined] until [setGameStateGetter] is called), and the
    states printed by [updateControlsForState]. *)
Record Helper : Type := mkHelper {
  currentControls : GameControls;
  getCurrentGameState : option (Machine -> GameState);
  logged : list GameState
}.

Definition initialHelper : Helper :=
  mkHelper (mkGameControls None None None) None [].

Definition enableControl (control : Control) : Control :=
  set_alpha 1.0%float
    (set_cursor "pointer"
       (set_eventMode "static" (set_interactive true control))).

Definition disableControl (control : Control) : Control :=
  set_alpha 0.6%float
    (set_cursor "default"
       (set_eventMode "passive" (set_interactive false control))).

Definition enableControls (controls : option (list (option Control)))
  : option (list (option Control)) :=
  match controls with
  | None => None
  | Some l => Some (map (option_map enableControl) l)
  end.

Definition disableControls (controls : option (list (option Control)))
  : option (list (option Control)) :=
  match controls with
  | None => None
  | Some l => Some (map (option_map disableControl) l)
  end.

(** [if (playButton) enableControls([playButton])], and likewise to disable. *)
Definition enableButton (playButton : option Control) : option Control :=
  option_map enableControl playButton.

Definition disableButton (playButton : option Control) : option Control :=
  option_map disableControl playButton.

Definition updateControlsForState (state : GameState) (h : Helper) : Helper :=
  let c := currentControls h in
  let c' :=
    match state with
    | rest =>
        mkGameControls (enableControls (betButtons c))
                       (enableButton (playButton c))
                       (disableControls (cups c))
    | playing =>
        mkGameControls (disableControls (betButtons c))
                       (disableButton (playButton c))
                       (disableControls (cups c))
    | awaiting_pick =>
        mkGameControls (disableControls (betButtons c))
                       (disableButton (playButton c))
                       (enableControls (cups c))
    | resolving =>
        mkGameControls (disableControls (betButtons c))
                       (disableButton (playButton c))
                       (disableControls (cups c))
    end in
  mkHelper c' (getCurrentGameState h) (logged h ++ [state]).

(** [registerGameControls]: the controls are stored before the getter is
    called, and calling a getter that was never set is a [TypeError]. *)
Definition registerGameControls (controls : GameControls) (m : Machine)
           (h : Helper) : Outcome unit * Helper :=
  let h1 := mkHelper controls (getCurrentGameState h) (logged h) in
  match getCurrentGameState h1 with
  | None => (Threw (TypeError "getCurrentGameState is not a function"), h1)
  | Some getter => (Returned tt, updateControlsForState (getter m) h1)
  end.

Definition setGameStateGetter (getter : Machine -> GameState) (h : Helper)
  : Helper :=
  mkHelper (currentControls h) (Some getter) (logged h).

Definition resetControls (h : Helper) : Helper :=
  let c := currentControls h in
  let unlisten := option_map (removeAllListeners None) in
  let unlistenCup :=
    option_map (fun cup => set_scale 1%float 1%float
                                     (removeAllListeners None cup)) in
  mkHelper
    (mkGameControls
       (option_map (map unlisten) (betButtons c))
       (unlisten (playButton c))
       (option_map (map unlistenCup) (cups c)))
    (getCurrentGameState h) (logged h).

(** Whether a control, if present, is switched on. *)
Definition isOn (control : option Control) : Prop :=
  match control with
  | Some c => interactive c = true /\ eventMode c = "static"%string
  | None => True
  end.

Definition isOff (control : option Control) : Prop :=
  match control with
  | Some c => interactive c = false /\ eventMode c = "passive"%string
  | None => True
  end.

Definition allOf (Q : option Control -> Prop)
           (controls : option (list (option Control))) : Prop :=
  match controls with
  | Some l => Forall Q l
  | None => True
  end.

End GameControl.

(** The amounts passed to [onBalanceUpdate], oldest first. *)
Fixpoint balanceUpdates (tr : list Event) : list JsNumber :=
  match tr with
  | [] => []
  | CallOnBalanceUpdate a :: tr' => a :: balanceUpdates tr'
  | _ :: tr' => balanceUpdates tr'
  end.

(** How often [onRest] was called. *)
Fixpoint onRestCalls (tr : list Event) : nat :=
  match tr with
  | [] => 0
  | CallOnRest :: tr' => S (onRestCalls tr')
  | _ :: tr' => onRestCalls tr'
  end.

(** How often the start-round call of the session client was made. *)
Fixpoint playRoundCalls (tr : list Event) : nat :=
  match tr with
  | [] => 0
  | CallPlayRound _ :: tr' => S (playRoundCalls tr')
  | _ :: tr' => playRoundCalls tr'
  end.

(** Whether a control accepts pointer events. *)
Definition switchedOn (c : Control) : bool := String.eqb (eventMode c) "static".

(** The controls of [stateManager.ts] as the control helper would hold them. *)
Definition asGameControls (c : StateManager.UIComponents)
  : GameControl.GameControls :=
  GameControl.mkGameControls
    (Some [Some (StateManager.betMinusButton c);
           Some (StateManager.betPlusButton c)])
    (Some (StateManager.playButton c))
    (Some (map Some (StateManager.cupSprites c))).

(** Which of the registered controls accept pointer events. *)
Definition onPattern (c : GameControl.GameControls)
  : option (list (option bool)) * option bool * option (list (option bool)) :=
  (option_map (map (option_map switchedOn)) (GameControl.betButtons c),
   option_map switchedOn (GameControl.playButton c),
   option_map (map (option_map switchedOn)) (GameControl.cups c)).

(** What the enabling and disabling code writes to a control. *)
Definition styleOf (c : Control) : string * string * float * bool :=
  (eventMode c, cursor c, alpha c, interactive c).

(** What the enabling and disabling code leaves alone. *)
Definition restOf (c : Control) : list string * (float * float) :=
  (listeners c, scale c).

(** A control, if present, has no listener left. *)
Definition unlistened (control : option Control) : Prop :=
  match control with
  | Some c => listeners c = []
  | None => True
  end.

(** A control as pixi creates it, with hover and tap listeners attached. *)
Definition sampleControl : Control :=
  mkControl "auto" "default" 1%float true
            ["pointerover"; "pointerout"; "pointertap"]%string
            (1.1%float, 1.1%float).

Definition sampleComponents : StateManager.UIComponents :=
  StateManager.mkUIComponents sampleControl sampleControl sampleControl
                              [sampleControl; sampleControl; sampleControl].

(* ================================================================== *)
(** ** Basic facts *)

Lemma GameState_eqb_eq (a b : GameState) : GameState_eqb a b = true <-> a = b.
Proof. destruct a, b; simpl; split; intro H; try reflexivity; discriminate H. Qed.

Lemma includes_In (g : GameState) (l : list GameState) :
  includes g l = true <-> In g l.
Proof.
  unfold includes. rewrite existsb_exists. split.
  - intros [x [Hin Heq]]. apply GameState_eqb_eq in Heq. now subst.
  - intro Hin. exists g. split; [assumption | now apply GameState_eqb_eq].
Qed.

(** The table in the code is the table of the specification. *)
Lemma validTransitions_table (g g' : GameState) :
  includes g' (validTransitions g) = true <-> TableEdge g g'.
Proof.
  split.
  - destruct g, g'; simpl; intro H; try discriminate H; constructor.
  - destruct 1; reflexivity.
Qed.

(** Sequencing under [exec]. *)
Lemma exec_bind (env : Env) (A B : Type) (t : Async A) (f : A -> Async B) :
  forall m,
    exec env (bind t f) m =
    let r := exec env t m in
    match outcome r with
    | Returned a =>
        let r' := exec env (f a) (final r) in
        mkRun (outcome r') (final r') (awaited r ++ awaited r')
    | Threw e => mkRun (Threw e) (final r) (awaited r)
    | Spinning => mkRun Spinning (final r) (awaited r)
    | Pending => mkRun Pending (final r) (awaited r)
    end.
Proof.
  induction t as [a | e | | k IH | m' k IH | w k IH]; intro m; simpl.
  - destruct (exec env (f a) m); reflexivity.
  - reflexivity.
  - reflexivity.
  - apply IH.
  - apply IH.
  - rewrite IH. simpl.
    destruct (outcome (exec env (k (settle env w)) m)); reflexivity.
Qed.

Lemma exec_setGameState (env : Env) (g : GameState) (m : Machine) :
  exec env (setGameState g) m =
  mkRun (Returned tt)
        (if includes g (validTransitions (gamestate (rgs m)))
         then with_rgs (set_gamestate g)
                       (emit (LogTransition (gamestate (rgs m)) g) m)
         else emit (WarnInvalidTransition (gamestate (rgs m)) g) m)
        [].
Proof.
  unfold setGameState. simpl.
  destruct (includes g (validTransitions (gamestate (rgs m)))); reflexivity.
Qed.

(** A transition request never throws and never suspends. *)
Lemma setGameState_returns (env : Env) (g : GameState) (m : Machine) :
  outcome (exec env (setGameState g) m) = Returned tt.
Proof. rewrite exec_setGameState. reflexivity. Qed.

Lemma requestAll_returns (env : Env) (reqs : list GameState) :
  forall m, outcome (exec env (requestAll reqs) m) = Returned tt.
Proof.
  induction reqs as [| g later IH]; intro m; cbn [requestAll].
  - reflexivity.
  - rewrite exec_bind, exec_setGameState. simpl. apply IH.
Qed.

Lemma setGameState_phase (env : Env) (g : GameState) (m : Machine) :
  gamestate (rgs (final (exec env (setGameState g) m))) =
  if includes g (validTransitions (gamestate (rgs m))) then g
  else gamestate (rgs m).
Proof.
  rewrite exec_setGameState. destruct m as [[g0 rs er b lw] ci dv ch pr en tr].
  cbn. destruct (includes g (validTransitions g0)); reflexivity.
Qed.

Lemma setGameState_rejected (env : Env) (g : GameState) (m : Machine) :
  includes g (validTransitions (gamestate (rgs m))) = false ->
  rgs (final (exec env (setGameState g) m)) = rgs m /\
  trace (final (exec env (setGameState g) m)) =
  trace m ++ [WarnInvalidTransition (gamestate (rgs m)) g].
Proof.
  rewrite exec_setGameState. destruct m as [[g0 rs er b lw] ci dv ch pr en tr].
  cbn. intros ->. split; reflexivity.
Qed.

Lemma requestAll_reachable (env : Env) (reqs : list GameState) :
  forall m,
    Reachable (gamestate (rgs m)) ->
    Reachable (gamestate (rgs (final (exec env (requestAll reqs) m)))).
Proof.
  induction reqs as [| g later IH]; intros m Hm; cbn [requestAll].
  - exact Hm.
  - rewrite exec_bind. cbv zeta. rewrite setGameState_returns.
    cbn [final]. apply IH. rewrite setGameState_phase.
    destruct (includes g (validTransitions (gamestate (rgs m)))) eqn:Hin.
    + apply reach_edge with (g := gamestate (rgs m)); [exact Hm |].
      now apply validTransitions_table.
    + exact Hm.
Qed.

(* ================================================================== *)
(** ** The round state machine *)

(** C1.  From the initial phase [rest], after any sequence of transition
    requests the phase is one the table leads to; a further request then
    returns without throwing, moves the phase to the requested one when the
    table has that edge, and otherwise leaves the whole session as it was and
    only warns on the console. *)
Theorem setGameState_follows_table
        (env : Env) (reqs : list GameState) (g : GameState) (m : Machine) :
  gamestate (rgs m) = rest ->
  let m1 := final (exec env (requestAll reqs) m) in
  let r := exec env (setGameState g) m1 in
  outcome (exec env (requestAll reqs) m) = Returned tt /\
  Reachable (gamestate (rgs m1)) /\
  outcome r = Returned tt /\
  (TableEdge (gamestate (rgs m1)) g -> gamestate (rgs (final r)) = g) /\
  (~ TableEdge (gamestate (rgs m1)) g ->
   rgs (final r) = rgs m1 /\
   trace (final r) =
   trace m1 ++ [WarnInvalidTransition (gamestate (rgs m1)) g]).
Proof.
  intros Hrest m1 r.
  split; [apply requestAll_returns |].
  split.
  { apply requestAll_reachable. rewrite Hrest. constructor. }
  split; [apply setGameState_returns |].
  split.
  - intro Hedge. apply validTransitions_table in Hedge.
    subst r. rewrite setGameState_phase, Hedge. reflexivity.
  - intro Hno. subst r. apply setGameState_rejected.
    destruct (includes g (validTransitions (gamestate (rgs m1)))) eqn:Hin.
    + exfalso. apply Hno. now apply validTransitions_table.
    + reflexivity.
Qed.

Lemma setGameState_follows_table_witness :
  gamestate (rgs initialMachine) = rest /\
  let m1 := final (exec serverWins (requestAll [playing; resolving; awaiting_pick])
                        initialMachine) in
  let r := exec serverWins (setGameState rest) m1 in
  outcome (exec serverWins (requestAll [playing; resolving; awaiting_pick])
                initialMachine) = Returned tt /\
  Reachable (gamestate (rgs m1)) /\
  outcome r = Returned tt /\
  (TableEdge (gamestate (rgs m1)) rest -> gamestate (rgs (final r)) = rest) /\
  (~ TableEdge (gamestate (rgs m1)) rest ->
   rgs (final r) = rgs m1 /\
   trace (final r) =
   trace m1 ++ [WarnInvalidTransition (gamestate (rgs m1)) rest]).
Proof.
  split; [reflexivity |].
  apply (setGameState_follows_table serverWins
           [playing; resolving; awaiting_pick] rest initialMachine).
  reflexivity.
Defined.

(* ================================================================== *)
(** ** Starting and finalizing a round *)

Section StateFacts.

Variable isActiveBetError : JsError -> bool.

(** C2.  Outside [rest], [executeGameRound] throws the invalid-state error
    without reaching the network call and the balance is what it was.  In
    [rest], the machine at the only suspension (the network call) has the
    balance lowered by exactly [betAmount] and the phase [playing], these
    two steps having been logged in that order before the call; whatever
    the server answers, the balance afterwards is still lowered by exactly
    [betAmount]. *)
Theorem executeGameRound_deducts_once
        (env : Env) (betAmount : float) (m : Machine) :
  let r := exec env (executeGameRound isActiveBetError betAmount) m in
  (gamestate (rgs m) <> rest ->
   outcome r =
   Threw (Error ("Cannot start play from state: "
                   ++ GameState_name (gamestate (rgs m)))) /\
   balance (rgs (final r)) = balance (rgs m) /\
   awaited r = []) /\
  (gamestate (rgs m) = rest ->
   exists m1,
     awaited r = [(PlayRoundCall betAmount, m1)] /\
     rgs m1 =
     set_gamestate playing
                   (set_balance (balance (rgs m) - betAmount)%float (rgs m)) /\
     trace m1 =
     trace m ++ [LogBalanceDeducted betAmount (balance (rgs m) - betAmount)%float;
                 LogTransition rest playing;
                 CallPlayRound betAmount] /\
     balance (rgs (final r)) = (balance (rgs m) - betAmount)%float).
Proof.
  destruct m as [[g rs er b lw] ci dv ch pr en tr]. cbn [rgs gamestate balance trace].
  split.
  - intro Hg. destruct g; try (exfalso; apply Hg; reflexivity);
      cbn; destruct (isActiveBetError _); cbn; repeat split; reflexivity.
  - intro Hg. subst g. cbn.
    destruct (playRoundResult env betAmount) as [p | e].
    + destruct p as [[[[pm |] [st |]] |]]; cbn;
        try destruct (String.eqb st ""); cbn;
        eexists; repeat split; cbn; rewrite <- ?app_assoc; reflexivity.
    + cbn. destruct (isActiveBetError e); cbn;
        eexists; repeat split; cbn; rewrite <- ?app_assoc; reflexivity.
Qed.

(** A refused start from [playing] still runs the catch block: unless the
    error is classified as an open bet, the phase is set back to [rest]. *)
Lemma executeGameRound_refusal_from_playing
      (env : Env) (betAmount : float) (m : Machine) :
  gamestate (rgs m) = playing ->
  isActiveBetError (Error "Cannot start play from state: playing") = false ->
  gamestate (rgs (final (exec env (executeGameRound isActiveBetError betAmount)
                              m))) = rest.
Proof.
  destruct m as [[g rs er b lw] ci dv ch pr en tr]. cbn [rgs gamestate].
  intros -> Hcls. cbn. rewrite Hcls. reflexivity.
Qed.

(** C6.  When the start-round call is rejected with an error that is not
    classified as an open bet, [executeGameRound] throws that same error to
    its caller and ends in phase [rest], and it got there by a reset: while
    the call was outstanding the phase was [playing], and after the rejection
    the only things that happen are the error report and the logged
    transition from [playing] to [rest], which changes nothing of the session
    but the phase.  An error classified as an open bet is thrown too, but
    without the reset. *)
Theorem executeGameRound_fatal_resets
        (env : Env) (betAmount : float) (m : Machine) (e : JsError) :
  gamestate (rgs m) = rest ->
  playRoundResult env betAmount = Rejected e ->
  let r := exec env (executeGameRound isActiveBetError betAmount) m in
  outcome r = Threw e /\
  exists m1,
    awaited r = [(PlayRoundCall betAmount, m1)] /\
    gamestate (rgs m1) = playing /\
    (isActiveBetError e = false ->
     gamestate (rgs (final r)) = rest /\
     rgs (final r) = set_gamestate rest (rgs m1) /\
     trace (final r) =
     trace m1 ++ [ErrorRoundFailed e; LogTransition playing rest]) /\
    (isActiveBetError e = true ->
     gamestate (rgs (final r)) = playing /\
     rgs (final r) = rgs m1 /\
     trace (final r) = trace m1 ++ [LogActiveBet]).
Proof.
  destruct m as [[g rs er b lw] ci dv ch pr en tr]. cbn [rgs gamestate].
  intros Hg Hnet. subst g. cbn. rewrite Hnet. cbn.
  destruct (isActiveBetError e); cbn.
  - split; [reflexivity |]. eexists. split; [reflexivity |].
    split; [reflexivity |]. split; [intro H; discriminate H |].
    intros _. cbn. rewrite <- ?app_assoc. repeat split; reflexivity.
  - split; [reflexivity |]. eexists. split; [reflexivity |].
    split; [reflexivity |]. split; [| intro H; discriminate H].
    intros _. cbn. rewrite <- ?app_assoc. repeat split; reflexivity.
Qed.

End StateFacts.

Lemma executeGameRound_deducts_once_witness :
  (outcome (exec serverWins (executeGameRound sampleIsActiveBetError 1%float)
                 (inPhase playing initialMachine)) =
   Threw (Error "Cannot start play from state: playing") /\
   balance (rgs (final (exec serverWins
                             (executeGameRound sampleIsActiveBetError 1%float)
                             (inPhase playing initialMachine)))) = 1000%float) /\
  (exists m1,
      awaited (exec serverWins (executeGameRound sampleIsActiveBetError 1%float)
                    initialMachine) = [(PlayRoundCall 1%float, m1)] /\
      balance (rgs m1) = 999%float /\ gamestate (rgs m1) = playing).
Proof.
  split.
  - destruct (proj1 (executeGameRound_deducts_once
                       sampleIsActiveBetError serverWins 1%float
                       (inPhase playing initialMachine)))
      as [Hthrow [Hbal _]].
    + simpl. discriminate.
    + split; [exact Hthrow | exact Hbal].
  - destruct (proj2 (executeGameRound_deducts_once
                       sampleIsActiveBetError serverWins 1%float initialMachine))
      as [m1 [Hwait [Hrgs _]]].
    + reflexivity.
    + exists m1. split; [exact Hwait |]. rewrite Hrgs. split; reflexivity.
Defined.

Lemma executeGameRound_fatal_resets_witness :
  let r := exec serverDown (executeGameRound sampleIsActiveBetError 1%float)
                initialMachine in
  outcome r = Threw (ApiRejection "ECONNRESET") /\
  exists m1,
    awaited r = [(PlayRoundCall 1%float, m1)] /\
    gamestate (rgs m1) = playing /\
    gamestate (rgs (final r)) = rest /\
    trace (final r) =
    trace m1 ++ [ErrorRoundFailed (ApiRejection "ECONNRESET");
                 LogTransition playing rest].
Proof.
  destruct (@executeGameRound_fatal_resets
              sampleIsActiveBetError serverDown 1%float initialMachine
              (ApiRejection "ECONNRESET") eq_refl eq_refl)
    as [Hout [m1 [Hwait [Hplaying [Hfatal _]]]]].
  destruct (Hfatal eq_refl) as [Hrest [_ Htrace]].
  split; [exact Hout |]. exists m1.
  split; [exact Hwait |]. split; [exact Hplaying |].
  split; [exact Hrest | exact Htrace].
Defined.

(** C8, as stated, fails in two ways.  A successful [finalizeRound] reaches
    [rest] only through [setGameState], and from [awaiting_pick] the table has
    no such edge, so the phase stays [awaiting_pick] although the balance is
    overwritten.  And the transition is requested only when the confirmed
    amount is not [null]: a fulfilled call whose amount is [null] returns the
    confirmation and overwrites the balance with 0, but leaves the phase
    [playing]. *)
Lemma finalizeRound_may_not_reach_rest :
  (let r := exec serverWins finalizeRound (inPhase awaiting_pick initialMachine) in
   outcome r = Returned confirmation5 /\
   balance (rgs (final r)) = 5%float /\
   gamestate (rgs (final r)) = awaiting_pick) /\
  (let r := exec serverConfirmsNull finalizeRound
                 (inPhase playing initialMachine) in
   outcome r = Returned confirmationNull /\
   balance (rgs (final r)) = 0%float /\
   gamestate (rgs (final r)) = playing).
Proof.
  split; cbn; repeat split; reflexivity.
Qed.

(** C8, amended.  When the end-round call is fulfilled, [finalizeRound]
    overwrites the balance with the confirmed amount (given in millionths;
    0 for [null] and NaN for a missing amount), records the confirmation and
    returns it, leaving the recorded response and [lastWin] alone.  Only when
    the amount is not [null] does it request the transition to [rest]: the
    phase then becomes [rest] from [playing] and [resolving], stays [rest]
    from [rest], and stays [awaiting_pick] from [awaiting_pick]; with a
    [null] or missing amount the phase is what it was.  When the call is
    rejected, the error is thrown to the caller and the session (phase and
    balance included) is unchanged. *)
Theorem finalizeRound_settles (env : Env) (m : Machine) :
  let r := exec env finalizeRound m in
  (forall c, endRoundResult env = Fulfilled c ->
             outcome r = Returned c /\
             rgs (final r) =
             mkSession
               (if notNull (amount (Types.balance c)) then
                  match gamestate (rgs m) with
                  | awaiting_pick => awaiting_pick
                  | _ => rest
                  end
                else gamestate (rgs m))
               (response (rgs m)) (Some c)
               (toNumber (amount (Types.balance c)) / 1000000)%float
               (lastWin (rgs m)) /\
             List.length (awaited r) = 1) /\
  (forall e, endRoundResult env = Rejected e ->
             outcome r = Threw e /\ rgs (final r) = rgs m).
Proof.
  destruct m as [[g rs er b lw] ci dv ch pr en tr]. cbn [rgs gamestate].
  split.
  - intros c Hc. cbn. rewrite Hc. cbn.
    destruct c as [[[a | |]]]; destruct g; cbn; repeat split; reflexivity.
  - intros e He. cbn. rewrite He. cbn. split; reflexivity.
Qed.

Lemma finalizeRound_settles_witness :
  (let r := exec serverWins finalizeRound (inPhase playing initialMachine) in
   outcome r = Returned confirmation5 /\
   balance (rgs (final r)) = 5%float /\
   gamestate (rgs (final r)) = rest) /\
  (let r := exec serverConfirmsNull finalizeRound
                 (inPhase resolving initialMachine) in
   outcome r = Returned confirmationNull /\
   balance (rgs (final r)) = 0%float /\
   gamestate (rgs (final r)) = resolving) /\
  (let r := exec serverDown finalizeRound (inPhase playing initialMachine) in
   outcome r = Threw (ApiRejection "ECONNRESET") /\
   rgs (final r) = rgs (inPhase playing initialMachine)).
Proof.
  split; [| split].
  - destruct (proj1 (finalizeRound_settles serverWins
                                           (inPhase playing initialMachine))
                    confirmation5 eq_refl)
      as [Hout [Hrgs _]].
    split; [exact Hout |]. rewrite Hrgs. split; reflexivity.
  - destruct (proj1 (finalizeRound_settles serverConfirmsNull
                                           (inPhase resolving initialMachine))
                    confirmationNull eq_refl)
      as [Hout [Hrgs _]].
    split; [exact Hout |]. rewrite Hrgs. split; reflexivity.
  - exact (proj2 (finalizeRound_settles serverDown
                                        (inPhase playing initialMachine))
                 (ApiRejection "ECONNRESET") eq_refl).
Defined.

(* ================================================================== *)
(** ** Runs of the parts of [handleGameRound] *)

Lemma selections_app (a b : list Event) :
  selections (a ++ b) = selections a ++ selections b.
Proof.
  induction a as [| ev a IH]; [reflexivity |].
  destruct ev; simpl; rewrite ?IH; reflexivity.
Qed.

Lemma finalizeCalls_app (a b : list Event) :
  finalizeCalls (a ++ b) = finalizeCalls a + finalizeCalls b.
Proof.
  induction a as [| ev a IH]; [reflexivity |].
  destruct ev; simpl; rewrite ?IH; reflexivity.
Qed.

Lemma reveals_app (a b : list Event) :
  reveals (a ++ b) = reveals a ++ reveals b.
Proof.
  induction a as [| ev a IH]; [reflexivity |].
  destruct ev; simpl; rewrite ?IH; reflexivity.
Qed.

Lemma winReports_app (a b : list Event) :
  winReports (a ++ b) = winReports a ++ winReports b.
Proof.
  induction a as [| ev a IH]; [reflexivity |].
  destruct ev; simpl; rewrite ?IH; reflexivity.
Qed.

(** The start of a round accepts nothing, reveals nothing, reports nothing
    and does not finalize. *)
Lemma startTrace_quiet (betAmount b : float) (p : PlayResponse) :
  selections (startTrace betAmount b p) = [] /\
  finalizeCalls (startTrace betAmount b p) = 0 /\
  reveals (startTrace betAmount b p) = [] /\
  winReports (startTrace betAmount b p) = [] /\
  filter isAnimation (startTrace betAmount b p) = [].
Proof.
  unfold startTrace. destruct p as [[[pm [st |]] |]]; cbn;
    try destruct (String.eqb st ""); cbn; repeat split; reflexivity.
Qed.

Section RoundRuns.

Variable isActiveBetError : JsError -> bool.
Variable opts : GameRoundOptions.
Variable env : Env.

(** The setup when the server answers the start-round call. *)
Lemma setup_started (m : Machine) (p : PlayResponse) :
  skipAnimation opts = false ->
  gamestate (rgs m) = rest ->
  playRoundResult env 1%float = Fulfilled p ->
  let r := exec env (handleGameRound_setup isActiveBetError opts) m in
  outcome r = Returned (Some p, false) /\
  final r =
  mkMachine
    (mkSession playing (Some p) None (balance (rgs m) - 1)%float
               (lastWinOf 1%float p))
    (map (fun _ => true) (cupInteractive m)) (diamondVisible m) None false
    (entropy m) (trace m ++ startTrace 1%float (balance (rgs m)) p) /\
  phasesAwaited r = [(ImportRgs, rest); (PlayRoundCall 1%float, playing)].
Proof.
  destruct m as [[g rs er b lw] ci dv ch pr en tr].
  cbn [gamestate rgs balance cupInteractive diamondVisible entropy trace].
  intros Hskip -> Hnet. unfold phasesAwaited, startTrace, lastWinOf.
  cbn. rewrite Hskip. cbn. rewrite Hnet.
  destruct p as [[[[pm |] [st |]] |]]; cbn;
    try destruct (String.eqb st ""); cbn;
    repeat split; rewrite <- ?app_assoc; reflexivity.
Qed.

(** The setup when the start-round call is rejected as an open bet. *)
Lemma setup_open_bet (m : Machine) (e : JsError) :
  skipAnimation opts = false ->
  gamestate (rgs m) = rest ->
  playRoundResult env 1%float = Rejected e ->
  isActiveBetError e = true ->
  let r := exec env (handleGameRound_setup isActiveBetError opts) m in
  outcome r = Returned (None, true) /\
  final r =
  mkMachine
    (mkSession playing (response (rgs m)) (endRoundResponse (rgs m))
               (balance (rgs m) - 1)%float (lastWin (rgs m)))
    (map (fun _ => true) (cupInteractive m)) (diamondVisible m) None false
    (entropy m)
    (trace m ++ [LogBalanceDeducted 1%float (balance (rgs m) - 1)%float;
                 LogTransition rest playing; CallPlayRound 1%float;
                 LogActiveBet]) /\
  phasesAwaited r = [(ImportRgs, rest); (PlayRoundCall 1%float, playing)].
Proof.
  destruct m as [[g rs er b lw] ci dv ch pr en tr].
  cbn [gamestate rgs balance cupInteractive diamondVisible entropy trace
       response endRoundResponse lastWin].
  intros Hskip -> Hnet Hcls. unfold phasesAwaited.
  cbn. rewrite Hskip. cbn. rewrite Hnet. cbn. rewrite Hcls. cbn. rewrite Hcls.
  cbn. repeat split; rewrite <- ?app_assoc; reflexivity.
Qed.

(** The setup when the start-round call fails for another reason. *)
Lemma setup_fatal (m : Machine) (e : JsError) :
  skipAnimation opts = false ->
  gamestate (rgs m) = rest ->
  playRoundResult env 1%float = Rejected e ->
  isActiveBetError e = false ->
  let r := exec env (handleGameRound_setup isActiveBetError opts) m in
  outcome r = Threw e /\ gamestate (rgs (final r)) = rest.
Proof.
  destruct m as [[g rs er b lw] ci dv ch pr en tr]. cbn [gamestate rgs].
  intros Hskip -> Hnet Hcls.
  cbn. rewrite Hskip. cbn. rewrite Hnet. cbn. rewrite Hcls. cbn. rewrite Hcls.
  cbn. split; reflexivity.
Qed.

End RoundRuns.

Section TapRuns.

Variable opts : GameRoundOptions.
Variable env : Env.

#[local] Arguments Nat.ltb : simpl never.

(** A tap after a selection has been recorded does nothing at all. *)
Lemma tap_ignored (p : option PlayResponse) (ab : bool) (idx : nat)
      (m : Machine) :
  chosenIdx m <> None ->
  exec env (pointertap opts p ab idx) m = mkRun (Returned tt) m [].
Proof.
  intro Hc. unfold pointertap. cbn.
  destruct (chosenIdx m); [reflexivity | congruence].
Qed.

(** The accepted tap of a winning round whose end-round call is fulfilled. *)
Lemma tap_win_settled (p : option PlayResponse) (idx : nat) (m : Machine)
      (c : EndRoundResponse) :
  chosenIdx m = None ->
  gamestate (rgs m) = playing ->
  forceEndRound opts = false ->
  isWin p = true ->
  endRoundResult env = Fulfilled c ->
  let r := exec env (pointertap opts p false idx) m in
  outcome r = Returned tt /\
  final r =
  mkMachine
    (mkSession (settledPhase c) (response (rgs m)) (Some c)
               (toNumber (amount (Types.balance c)) / 1000000)%float
               (lastWin (rgs m)))
    (map (fun _ => false) (cupInteractive m)) false (Some idx) true (entropy m)
    (trace m ++
       [Selected idx; CallLiftCup idx; DiamondShown idx; CallLowerCup idx;
        DiamondHidden; CallEndRound] ++
       settledLog c ++
       [LogFinalized (toNumber (amount (Types.balance c)) / 1000000)%float;
        CallOnBalanceUpdate (amount (Types.balance c))] ++
       (if hasShowWinModal opts then [CallShowWinModal (lastWin (rgs m))]
        else []) ++
       (if hasLayout opts then [CallLayout] else [])) /\
  phasesAwaited r =
  [(LiftCup idx, playing); (Timeout 800, playing); (LowerCup idx, playing);
   (EndRoundCall, playing)] ++
  (if hasShowWinModal opts then [(ImportRgs, settledPhase c)] else []).
Proof.
  destruct opts as [hl hw sk fe onr], m as [[g rs er b lw] ci dv ch pr en tr].
  cbn [chosenIdx gamestate rgs forceEndRound hasShowWinModal hasLayout
       response lastWin cupInteractive entropy trace].
  intros -> -> -> Hwin Hend.
  unfold phasesAwaited, settledPhase, settledLog.
  cbn. rewrite Hwin. cbn. rewrite Hend.
  destruct c as [[[a | |]]];
    destruct hl, hw; cbn; repeat split; rewrite <- ?app_assoc; reflexivity.
Qed.

(** The accepted tap of a winning round whose end-round call is rejected:
    the listener throws, and the pick promise is not resolved. *)
Lemma tap_win_failed (p : option PlayResponse) (idx : nat) (m : Machine)
      (e : JsError) :
  chosenIdx m = None ->
  forceEndRound opts = false ->
  isWin p = true ->
  endRoundResult env = Rejected e ->
  let r := exec env (pointertap opts p false idx) m in
  outcome r = Threw e /\
  final r =
  mkMachine
    (rgs m) (map (fun _ => false) (cupInteractive m)) false (Some idx)
    (pickResolved m) (entropy m)
    (trace m ++
       [Selected idx; CallLiftCup idx; DiamondShown idx; CallLowerCup idx;
        DiamondHidden; CallEndRound; ErrorFinalize e]) /\
  phasesAwaited r =
  map (fun w => (w, gamestate (rgs m)))
      [LiftCup idx; Timeout 800; LowerCup idx; EndRoundCall].
Proof.
  destruct opts as [hl hw sk fe onr], m as [[g rs er b lw] ci dv ch pr en tr].
  cbn [chosenIdx gamestate rgs forceEndRound pickResolved cupInteractive
       entropy trace].
  intros -> -> Hwin Hend.
  unfold phasesAwaited. cbn. rewrite Hwin. cbn. rewrite Hend.
  cbn; repeat split; rewrite <- ?app_assoc; reflexivity.
Qed.

(** The accepted tap of a losing round, when the random values lead the
    loop out with [otherIdx] and that cup exists. *)
Lemma tap_loss (p : option PlayResponse) (idx : nat) (m : Machine)
      (d otherIdx : nat) (ds later : list nat) :
  chosenIdx m = None ->
  forceEndRound opts = false ->
  isWin p = false ->
  entropy m = d :: ds ->
  resample idx d ds = Some (otherIdx, later) ->
  otherIdx < List.length (cupInteractive m) ->
  let r := exec env (pointertap opts p false idx) m in
  outcome r = Returned tt /\
  final r =
  mkMachine
    (rgs m) (map (fun _ => false) (cupInteractive m)) false (Some idx) true
    later
    (trace m ++
       [Selected idx; CallLiftCup idx; CallLowerCup idx; CallLiftCup otherIdx;
        DiamondShown otherIdx; CallLowerCup otherIdx; DiamondHidden] ++
       (if hasLayout opts then [CallLayout] else [])) /\
  phasesAwaited r =
  map (fun w => (w, gamestate (rgs m)))
      [LiftCup idx; Timeout 600; LowerCup idx; LiftCup otherIdx; Timeout 800;
       LowerCup otherIdx].
Proof.
  destruct opts as [hl hw sk fe onr], m as [[g rs er b lw] ci dv ch pr en tr].
  cbn [chosenIdx gamestate rgs forceEndRound hasLayout cupInteractive
       entropy trace].
  intros -> -> Hwin -> Hloop Hcup.
  assert (Hlt : (otherIdx <? List.length (map (fun _ : bool => false) ci)) = true).
  { rewrite length_map. now apply Nat.ltb_lt. }
  unfold phasesAwaited. cbn. rewrite Hwin. cbn. rewrite Hloop. cbn.
  rewrite Hlt.
  destruct hl; cbn; repeat split; rewrite <- ?app_assoc; reflexivity.
Qed.

(** The accepted tap of a losing round, when the random values run out
    inside the loop. *)
Lemma tap_loss_spinning (p : option PlayResponse) (idx : nat) (m : Machine) :
  chosenIdx m = None ->
  forceEndRound opts = false ->
  isWin p = false ->
  match entropy m with
  | [] => True
  | d :: ds => resample idx d ds = None
  end ->
  let r := exec env (pointertap opts p false idx) m in
  outcome r = Spinning /\
  trace (final r) =
  trace m ++ [Selected idx; CallLiftCup idx; CallLowerCup idx] /\
  chosenIdx (final r) = Some idx /\
  rgs (final r) = rgs m /\
  phasesAwaited r =
  map (fun w => (w, gamestate (rgs m)))
      [LiftCup idx; Timeout 600; LowerCup idx].
Proof.
  destruct opts as [hl hw sk fe onr], m as [[g rs er b lw] ci dv ch pr en tr].
  cbn [chosenIdx gamestate rgs forceEndRound entropy trace].
  intros -> -> Hwin Hloop.
  unfold phasesAwaited. cbn. rewrite Hwin. cbn.
  destruct en as [| d ds]; [| rewrite Hloop]; cbn;
    repeat split; rewrite <- ?app_assoc; reflexivity.
Qed.

(** The accepted tap on the recovery path, end-round call fulfilled. *)
Lemma tap_recovery_settled (p : option PlayResponse) (ab : bool) (idx : nat)
      (m : Machine) (c : EndRoundResponse) :
  chosenIdx m = None ->
  gamestate (rgs m) = playing ->
  ab || forceEndRound opts = true ->
  endRoundResult env = Fulfilled c ->
  let r := exec env (pointertap opts p ab idx) m in
  outcome r = Returned tt /\
  final r =
  mkMachine
    (mkSession (settledPhase c) (response (rgs m)) (Some c)
               (toNumber (amount (Types.balance c)) / 1000000)%float
               (lastWin (rgs m)))
    (map (fun _ => false) (cupInteractive m)) (diamondVisible m) (Some idx)
    true (entropy m)
    (trace m ++
       [Selected idx; CallEndRound] ++
       settledLog c ++
       [LogFinalized (toNumber (amount (Types.balance c)) / 1000000)%float;
        CallOnBalanceUpdate (amount (Types.balance c))] ++
       (if hasLayout opts then [CallLayout] else [])) /\
  phasesAwaited r = [(EndRoundCall, playing)].
Proof.
  destruct opts as [hl hw sk fe onr], m as [[g rs er b lw] ci dv ch pr en tr].
  cbn [chosenIdx gamestate rgs forceEndRound hasLayout response lastWin
       cupInteractive diamondVisible entropy trace].
  intros -> -> Hrec Hend.
  unfold phasesAwaited, settledPhase, settledLog.
  cbn. rewrite Hrec. cbn. rewrite Hend.
  destruct c as [[[a | |]]];
    destruct hl; cbn; repeat split; rewrite <- ?app_assoc; reflexivity.
Qed.

(** The accepted tap on the recovery path, end-round call rejected. *)
Lemma tap_recovery_failed (p : option PlayResponse) (ab : bool) (idx : nat)
      (m : Machine) (e : JsError) :
  chosenIdx m = None ->
  ab || forceEndRound opts = true ->
  endRoundResult env = Rejected e ->
  let r := exec env (pointertap opts p ab idx) m in
  outcome r = Threw e /\
  final r =
  mkMachine
    (rgs m) (map (fun _ => false) (cupInteractive m)) (diamondVisible m)
    (Some idx) (pickResolved m) (entropy m)
    (trace m ++ [Selected idx; CallEndRound; ErrorFinalize e]) /\
  phasesAwaited r = [(EndRoundCall, gamestate (rgs m))].
Proof.
  destruct opts as [hl hw sk fe onr], m as [[g rs er b lw] ci dv ch pr en tr].
  cbn [chosenIdx gamestate rgs forceEndRound pickResolved cupInteractive
       diamondVisible entropy trace].
  intros -> Hrec Hend.
  unfold phasesAwaited. cbn. rewrite Hrec. cbn. rewrite Hend.
  cbn; repeat split; rewrite <- ?app_assoc; reflexivity.
Qed.

(** Taps that arrive once a selection is recorded leave the machine alone. *)
Lemma dispatchTaps_after_pick (p : option PlayResponse) (ab : bool)
      (taps : list nat) :
  forall m,
    chosenIdx m <> None ->
    dispatchTaps env (pointertap opts p ab) taps m = mkRun (Returned tt) m [].
Proof.
  induction taps as [| i taps IH]; intros m Hc; cbn [dispatchTaps].
  - reflexivity.
  - destruct (i <? List.length (cupInteractive m)).
    + rewrite tap_ignored by assumption. cbn [outcome final awaited].
      rewrite IH by assumption. reflexivity.
    + apply IH; assumption.
Qed.

(** Line 200. *)
Lemma done_run (m : Machine) :
  exec env (handleGameRound_done opts) m =
  mkRun (Returned tt) (with_rgs (onRest opts) (emit CallOnRest m)) [].
Proof. reflexivity. Qed.

End TapRuns.

(* ================================================================== *)
(** ** The rejection-sampling loop *)

(** The loop leaves as soon as a value differs from the selection. *)
Lemma resample_leaves (idx : nat) (ds : list nat) :
  forall d,
    Exists (fun x => x <> idx) (d :: ds) ->
    exists otherIdx later,
      resample idx d ds = Some (otherIdx, later) /\
      otherIdx <> idx /\ In otherIdx (d :: ds).
Proof.
  induction ds as [| d' ds IH]; intros d Hex.
  - inversion Hex as [x l Hd | x l Hl]; subst.
    + exists d, []. cbn. apply Nat.eqb_neq in Hd. rewrite Hd.
      apply Nat.eqb_neq in Hd. repeat split; [assumption | now left].
    + inversion Hl.
  - cbn [resample]. destruct (d =? idx) eqn:Hd.
    + apply Nat.eqb_eq in Hd. subst d.
      inversion Hex as [x l Hne | x l Hl]; subst; [congruence |].
      destruct (IH d' Hl) as [o [later [Hres [Hneq Hin]]]].
      exists o, later. repeat split; [assumption | assumption | now right].
    + exists d, (d' :: ds). apply Nat.eqb_neq in Hd.
      repeat split; [assumption | now left].
Qed.

(** It cannot leave while every value equals the selection. *)
Lemma resample_stays (idx : nat) (ds : list nat) :
  forall d, Forall (fun x => x = idx) (d :: ds) -> resample idx d ds = None.
Proof.
  induction ds as [| d' ds IH]; intros d Hall;
    inversion Hall as [| x l Hd Hrest]; subst; cbn [resample];
    rewrite Nat.eqb_refl; [reflexivity | now apply IH].
Qed.

(** Whatever it returns differs from the selection and was drawn. *)
Lemma resample_sound (idx : nat) (ds : list nat) :
  forall d otherIdx later,
    resample idx d ds = Some (otherIdx, later) ->
    otherIdx <> idx /\ In otherIdx (d :: ds).
Proof.
  induction ds as [| d' ds IH]; intros d o later; cbn [resample];
    destruct (d =? idx) eqn:Hd; intro H; try discriminate H.
  - inversion H; subst. apply Nat.eqb_neq in Hd. split; [assumption | now left].
  - destruct (IH _ _ _ H) as [Hneq Hin]. split; [assumption | now right].
  - inversion H; subst. apply Nat.eqb_neq in Hd. split; [assumption | now left].
Qed.

(* ================================================================== *)
(** ** A whole round *)

Section Rounds.

Variable isActiveBetError : JsError -> bool.
Variable opts : GameRoundOptions.
Variable env : Env.

#[local] Arguments Nat.ltb : simpl never.

(** After the setup, the first tap on an existing cup decides the round:
    later taps change nothing, and the round is over when the listener has
    resolved the pick promise. *)
Lemma handleGameRound_first_tap
      (m : Machine) (p : option PlayResponse) (ab : bool) (idx : nat)
      (taps : list nat) (m0 m1 : Machine) (o1 : Outcome unit) :
  outcome (exec env (handleGameRound_setup isActiveBetError opts) m) =
  Returned (p, ab) ->
  final (exec env (handleGameRound_setup isActiveBetError opts) m) = m0 ->
  idx < List.length (cupInteractive m0) ->
  outcome (exec env (pointertap opts p ab idx) m0) = o1 ->
  final (exec env (pointertap opts p ab idx) m0) = m1 ->
  chosenIdx m1 <> None ->
  let r := handleGameRound isActiveBetError opts env (idx :: taps) m in
  outcome r =
  match o1 with
  | Spinning => Spinning
  | _ => if pickResolved m1 then Returned tt else Pending
  end /\
  final r =
  match o1 with
  | Spinning => m1
  | _ => if pickResolved m1 then with_rgs (onRest opts) (emit CallOnRest m1)
         else m1
  end /\
  phasesAwaited r =
  phasesAwaited (exec env (handleGameRound_setup isActiveBetError opts) m) ++
  (PickPromise, gamestate (rgs m0))
    :: phasesAwaited (exec env (pointertap opts p ab idx) m0).
Proof.
  intros Hsetup Hm0 Hidx Ho1 Hm1 Hchosen r. subst r.
  unfold handleGameRound, phasesAwaited. rewrite Hsetup, Hm0.
  cbn [dispatchTaps].
  apply Nat.ltb_lt in Hidx. rewrite Hidx. rewrite Ho1, Hm1.
  destruct o1; cbn [outcome final awaited]; rewrite ?Ho1, ?Hm1;
    cbn [outcome final awaited];
    rewrite ?dispatchTaps_after_pick by assumption;
    cbn [outcome final awaited]; rewrite ?app_nil_r;
    try (destruct (pickResolved m1);
         [rewrite done_run; cbn [outcome final awaited]; rewrite ?app_nil_r |]);
    repeat split; cbn [awaited]; rewrite ?map_app; reflexivity.
Qed.

(** C3.  On the win path the diamond is shown under the cup the player
    picked and nowhere else, further taps are not accepted, and
    [finalizeRound] reaches the end-round call exactly once.  When that call
    is fulfilled the round completes and the amount given to [showWinModal]
    (if the caller supplied one) is the payout multiplier times the bet of 1
    that [handleGameRound] places.  For any bet, [executeGameRound] stores
    the multiplier times that bet in [lastWin]. *)
Theorem win_path
        (m : Machine) (p : PlayResponse) (rd : Round) (pm : float)
        (idx : nat) (taps : list nat) :
  skipAnimation opts = false ->
  forceEndRound opts = false ->
  gamestate (rgs m) = rest ->
  playRoundResult env 1%float = Fulfilled p ->
  round p = Some rd ->
  payoutMultiplier rd = Some pm ->
  (0 <? pm)%float = true ->
  idx < List.length (cupInteractive m) ->
  let r := handleGameRound isActiveBetError opts env (idx :: taps) m in
  reveals (trace (final r)) = reveals (trace m) ++ [idx] /\
  selections (trace (final r)) = selections (trace m) ++ [idx] /\
  finalizeCalls (trace (final r)) = finalizeCalls (trace m) + 1 /\
  (forall c, endRoundResult env = Fulfilled c ->
             outcome r = Returned tt /\
             winReports (trace (final r)) =
             winReports (trace m) ++
             (if hasShowWinModal opts then [(pm * 1)%float] else [])) /\
  (forall betAmount m',
      gamestate (rgs m') = rest ->
      playRoundResult env betAmount = Fulfilled p ->
      lastWin (rgs (final (exec env (executeGameRound isActiveBetError betAmount)
                                m'))) = (pm * betAmount)%float).
Proof.
  intros Hskip Hforce Hrest Hnet Hround Hpm Hpos Hidx r.
  destruct (setup_started isActiveBetError opts env m Hskip Hrest Hnet)
    as [Hout0 [Hfin0 _]].
  assert (Hwin : isWin (Some p) = true).
  { unfold isWin. rewrite Hround, Hpm. exact Hpos. }
  assert (Hlast : lastWinOf 1%float p = (pm * 1)%float).
  { unfold lastWinOf. rewrite Hround, Hpm. reflexivity. }
  destruct (startTrace_quiet 1%float (balance (rgs m)) p)
    as [Hs0 [Hf0 [Hr0 [Hw0 _]]]].
  set (m0 := final (exec env (handleGameRound_setup isActiveBetError opts) m))
    in *.
  assert (Hidx0 : idx < List.length (cupInteractive m0)).
  { rewrite Hfin0. cbn [cupInteractive]. now rewrite length_map. }
  assert (Hnone : chosenIdx m0 = None) by (rewrite Hfin0; reflexivity).
  assert (Hplaying : gamestate (rgs m0) = playing) by (rewrite Hfin0; reflexivity).
  assert (Htrace0 : trace m0 = trace m ++ startTrace 1%float (balance (rgs m)) p)
    by (rewrite Hfin0; reflexivity).
  assert (Hlw0 : lastWin (rgs m0) = (pm * 1)%float)
    by (rewrite Hfin0; exact Hlast).
  assert (Hbet : forall betAmount m',
             gamestate (rgs m') = rest ->
             playRoundResult env betAmount = Fulfilled p ->
             lastWin (rgs (final (exec env (executeGameRound isActiveBetError
                                                             betAmount) m'))) =
             (pm * betAmount)%float).
  { intros betAmount m' Hrest' Hnet'.
    destruct m' as [[g rs er b lw] ci dv ch pr en tr].
    cbn [gamestate rgs] in Hrest'. subst g. cbn. rewrite Hnet'.
    destruct p as [rdo]. cbn [round] in Hround. subst rdo.
    destruct rd as [pmo sto]. cbn [payoutMultiplier] in Hpm. subst pmo.
    destruct sto as [st |]; cbn; [destruct (String.eqb st "") |];
      reflexivity. }
  destruct (endRoundResult env) as [c | e] eqn:Hend.
  - destruct (tap_win_settled opts env (Some p) idx m0
                              Hnone Hplaying Hforce Hwin Hend)
      as [Hout1 [Hfin1 _]].
    destruct (@handleGameRound_first_tap m (Some p) false idx taps m0 _ _
                                         Hout0 eq_refl Hidx0 Hout1 Hfin1)
      as [Hout [Hfin _]]; [cbn; discriminate |].
    fold r in Hout, Hfin. cbn [pickResolved] in Hout, Hfin.
    rewrite Hfin, Hout. cbn [with_rgs emit trace].
    rewrite Htrace0, Hlw0.
    rewrite !reveals_app, !selections_app, !finalizeCalls_app, !winReports_app,
      Hs0, Hf0, Hr0, Hw0.
    unfold settledLog.
    destruct (notNull (amount (Types.balance c))),
             (hasShowWinModal opts), (hasLayout opts); cbn;
      rewrite ?app_nil_r, ?Nat.add_0_r;
      (split; [reflexivity |]); (split; [reflexivity |]);
      (split; [reflexivity |]);
      (split; [| exact Hbet]);
      intros c' _; split; reflexivity.
  - destruct (tap_win_failed opts env (Some p) idx m0 Hnone Hforce Hwin Hend)
      as [Hout1 [Hfin1 _]].
    destruct (@handleGameRound_first_tap m (Some p) false idx taps m0 _ _
                                         Hout0 eq_refl Hidx0 Hout1 Hfin1)
      as [Hout [Hfin _]]; [cbn; discriminate |].
    fold r in Hout, Hfin. cbn [pickResolved] in Hout, Hfin.
    assert (Hres : pickResolved m0 = false) by (rewrite Hfin0; reflexivity).
    rewrite Hres in Hout, Hfin.
    rewrite Hfin. cbn [trace]. rewrite Htrace0.
    rewrite !reveals_app, !selections_app, !finalizeCalls_app, Hs0, Hf0, Hr0.
    cbn. rewrite ?app_nil_r, ?Nat.add_0_r.
    (split; [reflexivity |]); (split; [reflexivity |]);
      (split; [reflexivity |]); (split; [| exact Hbet]).
    intros c' Hc'. discriminate Hc'.
Qed.

(** C4.  On the loss path (the response is not a win: multiplier zero,
    absent, or otherwise not above zero) [finalizeRound] is never called.
    With three cups or more and random values in {0,1,2}, every cup under
    which the diamond is shown is in {0,1,2} and is not the selection; and as
    soon as one of the random values differs from the selection, the loop
    leaves, exactly one cup is revealed and the round completes. *)
Theorem loss_path
        (m : Machine) (p : PlayResponse) (idx : nat) (taps : list nat) :
  skipAnimation opts = false ->
  forceEndRound opts = false ->
  gamestate (rgs m) = rest ->
  playRoundResult env 1%float = Fulfilled p ->
  isWin (Some p) = false ->
  idx < List.length (cupInteractive m) ->
  3 <= List.length (cupInteractive m) ->
  Forall (fun d => d < 3) (entropy m) ->
  let r := handleGameRound isActiveBetError opts env (idx :: taps) m in
  finalizeCalls (trace (final r)) = finalizeCalls (trace m) /\
  exists shown,
    reveals (trace (final r)) = reveals (trace m) ++ shown /\
    Forall (fun o => o < 3 /\ o <> idx) shown /\
    (Exists (fun d => d <> idx) (entropy m) ->
     outcome r = Returned tt /\ List.length shown = 1).
Proof.
  intros Hskip Hforce Hrest Hnet Hloss Hidx Hcups Hdraws r.
  destruct (setup_started isActiveBetError opts env m Hskip Hrest Hnet)
    as [Hout0 [Hfin0 _]].
  destruct (startTrace_quiet 1%float (balance (rgs m)) p)
    as [_ [Hf0 [Hr0 _]]].
  set (m0 := final (exec env (handleGameRound_setup isActiveBetError opts) m))
    in *.
  assert (Hlen0 : List.length (cupInteractive m0) =
                  List.length (cupInteractive m)).
  { rewrite Hfin0. cbn [cupInteractive]. apply length_map. }
  assert (Hidx0 : idx < List.length (cupInteractive m0)) by (now rewrite Hlen0).
  assert (Hnone : chosenIdx m0 = None) by (rewrite Hfin0; reflexivity).
  assert (Htrace0 : trace m0 = trace m ++ startTrace 1%float (balance (rgs m)) p)
    by (rewrite Hfin0; reflexivity).
  assert (Hent0 : entropy m0 = entropy m) by (rewrite Hfin0; reflexivity).
  assert (Hspin :
            match entropy m0 with
            | [] => True
            | d :: ds => resample idx d ds = None
            end ->
            finalizeCalls (trace (final r)) = finalizeCalls (trace m) /\
            reveals (trace (final r)) = reveals (trace m) ++ []).
  { intro Hnoexit.
    destruct (tap_loss_spinning opts env (Some p) idx m0 Hnone Hforce Hloss
                                Hnoexit) as [Hout1 [Htr1 [Hch1 _]]].
    destruct (@handleGameRound_first_tap m (Some p) false idx taps m0 _ _
                                         Hout0 eq_refl Hidx0 Hout1 eq_refl)
      as [_ [Hfin _]]; [rewrite Hch1; discriminate |].
    fold r in Hfin. rewrite Hfin, Htr1, Htrace0.
    rewrite !finalizeCalls_app, !reveals_app, Hf0, Hr0. cbn.
    rewrite ?Nat.add_0_r, ?app_nil_r. split; reflexivity. }
  destruct (entropy m) as [| d ds] eqn:Hent.
  - destruct Hspin as [Hfz Hrv]; [rewrite Hent0; exact I |].
    split; [exact Hfz |]. exists []. split; [exact Hrv |].
    split; [constructor |]. intro Hex. inversion Hex.
  - destruct (resample idx d ds) as [[otherIdx later] |] eqn:Hloop.
    + destruct (resample_sound _ _ _ Hloop) as [Hneq Hin].
      assert (Hlt : otherIdx < 3).
      { rewrite Forall_forall in Hdraws. now apply Hdraws. }
      assert (Hcup : otherIdx < List.length (cupInteractive m0))
        by (rewrite Hlen0; lia).
      assert (Hent0' : entropy m0 = d :: ds) by (now rewrite Hent0).
      destruct (tap_loss opts env (Some p) idx m0 Hnone Hforce Hloss
                         Hent0' Hloop Hcup) as [Hout1 [Hfin1 _]].
      destruct (@handleGameRound_first_tap m (Some p) false idx taps m0 _ _
                                           Hout0 eq_refl Hidx0 Hout1 Hfin1)
        as [Hout [Hfin _]]; [cbn; discriminate |].
      fold r in Hout, Hfin. cbn [pickResolved] in Hout, Hfin.
      rewrite Hfin, Hout. cbn [with_rgs emit trace]. rewrite Htrace0.
      rewrite !finalizeCalls_app, !reveals_app, Hf0, Hr0.
      destruct (hasLayout opts); cbn; rewrite ?Nat.add_0_r, ?app_nil_r;
        (split; [reflexivity |]); exists [otherIdx];
        (split; [reflexivity |]);
        (split; [constructor; [split; assumption | constructor] |]);
        intros _; split; reflexivity.
    + destruct Hspin as [Hfz Hrv]; [rewrite Hent0; exact Hloop |].
      split; [exact Hfz |]. exists []. split; [exact Hrv |].
      split; [constructor |]. intro Hex.
      destruct (resample_leaves Hex) as [o [later [Hsome _]]].
      rewrite Hloop in Hsome. discriminate Hsome.
Qed.

(** C5.  When the start-round call is rejected with an error classified
    as an open bet, the setup returns normally with the balance still lowered
    by the bet and the recovery flag set, and [handleGameRound] never throws.
    Of the taps that follow only the first is accepted, [finalizeRound]
    reaches the end-round call exactly once, and no cup is lifted or lowered
    and no diamond shown or hidden.  When the end-round call is fulfilled
    the round completes. *)
Theorem open_bet_path
        (m : Machine) (e : JsError) (idx : nat) (taps : list nat) :
  skipAnimation opts = false ->
  gamestate (rgs m) = rest ->
  playRoundResult env 1%float = Rejected e ->
  isActiveBetError e = true ->
  idx < List.length (cupInteractive m) ->
  let r0 := exec env (handleGameRound_setup isActiveBetError opts) m in
  let r := handleGameRound isActiveBetError opts env (idx :: taps) m in
  outcome r0 = Returned (None, true) /\
  balance (rgs (final r0)) = (balance (rgs m) - 1)%float /\
  (forall err, outcome r <> Threw err) /\
  selections (trace (final r)) = selections (trace m) ++ [idx] /\
  finalizeCalls (trace (final r)) = finalizeCalls (trace m) + 1 /\
  filter isAnimation (trace (final r)) = filter isAnimation (trace m) /\
  (forall c, endRoundResult env = Fulfilled c -> outcome r = Returned tt).
Proof.
  intros Hskip Hrest Hnet Hcls Hidx r0 r.
  destruct (setup_open_bet isActiveBetError opts env m Hskip Hrest Hnet Hcls)
    as [Hout0 [Hfin0 _]].
  fold r0 in Hout0, Hfin0.
  set (m0 := final r0) in *.
  assert (Hidx0 : idx < List.length (cupInteractive m0)).
  { rewrite Hfin0. cbn [cupInteractive]. now rewrite length_map. }
  assert (Hnone : chosenIdx m0 = None) by (rewrite Hfin0; reflexivity).
  assert (Hplaying : gamestate (rgs m0) = playing) by (rewrite Hfin0; reflexivity).
  assert (Hres : pickResolved m0 = false) by (rewrite Hfin0; reflexivity).
  assert (Htrace0 :
            trace m0 =
            trace m ++ [LogBalanceDeducted 1%float (balance (rgs m) - 1)%float;
                        LogTransition rest playing; CallPlayRound 1%float;
                        LogActiveBet])
    by (rewrite Hfin0; reflexivity).
  split; [exact Hout0 |].
  split; [rewrite Hfin0; reflexivity |].
  destruct (endRoundResult env) as [c | e'] eqn:Hend.
  - destruct (tap_recovery_settled opts env None true idx m0
                                   Hnone Hplaying eq_refl Hend)
      as [Hout1 [Hfin1 _]].
    destruct (@handleGameRound_first_tap m None true idx taps m0 _ _
                                         Hout0 eq_refl Hidx0 Hout1 Hfin1)
      as [Hout [Hfin _]]; [cbn; discriminate |].
    fold r in Hout, Hfin. cbn [pickResolved] in Hout, Hfin.
    rewrite Hfin, Hout. cbn [with_rgs emit trace]. rewrite Htrace0.
    rewrite !selections_app, !finalizeCalls_app, !filter_app.
    unfold settledLog.
    destruct (notNull (amount (Types.balance c))), (hasLayout opts); cbn;
      rewrite ?app_nil_r, ?Nat.add_0_r;
      (split; [discriminate |]); repeat split; reflexivity.
  - destruct (tap_recovery_failed opts env None true idx m0
                                  Hnone eq_refl Hend)
      as [Hout1 [Hfin1 _]].
    destruct (@handleGameRound_first_tap m None true idx taps m0 _ _
                                         Hout0 eq_refl Hidx0 Hout1 Hfin1)
      as [Hout [Hfin _]]; [cbn; discriminate |].
    fold r in Hout, Hfin. cbn [pickResolved] in Hout, Hfin.
    rewrite Hres in Hout, Hfin.
    rewrite Hfin, Hout. cbn [trace]. rewrite Htrace0.
    rewrite !selections_app, !finalizeCalls_app, !filter_app.
    cbn; rewrite ?app_nil_r, ?Nat.add_0_r.
    (split; [discriminate |]); repeat split; try reflexivity.
    intros c Hc. discriminate Hc.
Qed.

(** A losing round that completes leaves the phase where the start put it,
    unless the caller's [onRest] changes it. *)
Lemma loss_round_phase
      (m : Machine) (p : PlayResponse) (idx : nat) (taps : list nat)
      (d otherIdx : nat) (ds later : list nat) :
  skipAnimation opts = false ->
  forceEndRound opts = false ->
  gamestate (rgs m) = rest ->
  playRoundResult env 1%float = Fulfilled p ->
  isWin (Some p) = false ->
  idx < List.length (cupInteractive m) ->
  entropy m = d :: ds ->
  resample idx d ds = Some (otherIdx, later) ->
  otherIdx < List.length (cupInteractive m) ->
  let r := handleGameRound isActiveBetError opts env (idx :: taps) m in
  outcome r = Returned tt /\
  rgs (final r) =
  onRest opts (mkSession playing (Some p) None (balance (rgs m) - 1)%float
                         (lastWinOf 1%float p)) /\
  Forall (fun s => snd s = playing) (skipn 1 (phasesAwaited r)).
Proof.
  intros Hskip Hforce Hrest Hnet Hloss Hidx Hent Hloop Hother r.
  destruct (setup_started isActiveBetError opts env m Hskip Hrest Hnet)
    as [Hout0 [Hfin0 Hph0]].
  set (m0 := final (exec env (handleGameRound_setup isActiveBetError opts) m))
    in *.
  assert (Hlen0 : List.length (cupInteractive m0) =
                  List.length (cupInteractive m)).
  { rewrite Hfin0. cbn [cupInteractive]. apply length_map. }
  assert (Hidx0 : idx < List.length (cupInteractive m0)) by (now rewrite Hlen0).
  assert (Hcup : otherIdx < List.length (cupInteractive m0))
    by (now rewrite Hlen0).
  assert (Hnone : chosenIdx m0 = None) by (rewrite Hfin0; reflexivity).
  assert (Hent0 : entropy m0 = d :: ds) by (rewrite Hfin0; exact Hent).
  destruct (tap_loss opts env (Some p) idx m0 Hnone Hforce Hloss
                     Hent0 Hloop Hcup) as [Hout1 [Hfin1 Hph1]].
  destruct (@handleGameRound_first_tap m (Some p) false idx taps m0 _ _
                                       Hout0 eq_refl Hidx0 Hout1 Hfin1)
    as [Hout [Hfin Hph]]; [cbn; discriminate |].
  fold r in Hout, Hfin, Hph. cbn [pickResolved] in Hout, Hfin.
  split; [exact Hout |]. split.
  - rewrite Hfin. cbn [with_rgs emit rgs]. rewrite Hfin0. reflexivity.
  - rewrite Hph, Hph0, Hph1. rewrite Hfin0. cbn.
    repeat constructor.
Qed.

End Rounds.

(* ================================================================== *)
(** ** Invariants under every interleaving *)

Section KeepsFacts.

Variable P : Machine -> Prop.

Lemma Keeps_bind (A B : Type) (t : Async A) (f : A -> Async B) (m : Machine) :
  Keeps P m t -> (forall a m', Keeps P m' (f a)) -> Keeps P m (bind t f).
Proof.
  intros Ht Hf. induction Ht; cbn [bind]; try (constructor; auto; fail).
  apply Hf.
Qed.

Lemma Keeps_tryCatch (A : Type) (t : Async A) (h : JsError -> Async A)
      (m : Machine) :
  Keeps P m t -> (forall e m', Keeps P m' (h e)) -> Keeps P m (tryCatch t h).
Proof.
  intros Ht Hh. induction Ht; cbn [tryCatch]; try (constructor; auto; fail).
  apply Hh.
Qed.

Lemma Keeps_modify (f : Machine -> Machine) (m : Machine) :
  (P m -> P (f m)) -> Keeps P m (modify f).
Proof. intro H. unfold modify. repeat constructor. exact H. Qed.

Lemma Keeps_reads (A : Type) (f : Machine -> A) (m : Machine) :
  Keeps P m (reads f).
Proof. unfold reads. repeat constructor. Qed.

Lemma Keeps_console (ev : Event) (m : Machine) :
  (P m -> P (emit ev m)) -> Keeps P m (console ev).
Proof. apply Keeps_modify. Qed.

Lemma Keeps_await (w : Wait) (m : Machine) : Keeps P m (await w).
Proof. unfold await. constructor. intros [x | e] m2; constructor. Qed.

(** Running a task to its first suspension. *)
Lemma advance_keeps (t : Async unit) (m : Machine) :
  Keeps P m t ->
  (P m -> P (fst (Loop.advance t m))) /\
  match snd (Loop.advance t m) with
  | Loop.Suspended (Loop.Parked w k) => forall s m2, Keeps P m2 (k s)
  | _ => True
  end.
Proof.
  induction 1; cbn [Loop.advance fst snd]; try (split; [tauto | exact I]).
  - assumption.
  - destruct IHKeeps as [Hp Hk]. split; [tauto | exact Hk].
  - split; [tauto | assumption].
Qed.

Hypothesis P_stable : Stable P.

Lemma setGameState_rest_keeps (m : Machine) : Keeps P m (setGameState rest).
Proof.
  unfold setGameState, getGameState. cbn [bind reads]. constructor.
  destruct (negb (includes rest (validTransitions (gamestate (rgs m))))).
  - apply Keeps_console. now apply (stable_emit P_stable).
  - apply Keeps_bind.
    + apply Keeps_console. now apply (stable_emit P_stable).
    + intros _ m'. apply Keeps_modify. apply (stable_rest P_stable).
Qed.

Lemma finalizeRound_keeps (m : Machine) : Keeps P m finalizeRound.
Proof.
  unfold finalizeRound. apply Keeps_tryCatch.
  - apply Keeps_bind;
      [apply Keeps_console; now apply (stable_emit P_stable) | intros _ m1].
    apply Keeps_bind; [apply Keeps_await | intros c m2].
    apply Keeps_bind;
      [apply Keeps_modify; apply (stable_balance P_stable) | intros _ m3].
    apply Keeps_bind;
      [apply Keeps_modify; apply (stable_confirmation P_stable) | intros _ m4].
    apply Keeps_bind;
      [destruct (notNull (amount (Types.balance c)));
       [apply setGameState_rest_keeps | constructor] | intros _ m5].
    apply Keeps_bind; [apply Keeps_reads | intros b m6].
    apply Keeps_bind;
      [apply Keeps_console; now apply (stable_emit P_stable) | intros _ m7].
    constructor.
  - intros e m1. apply Keeps_bind;
      [apply Keeps_console; now apply (stable_emit P_stable) | intros _ m2].
    constructor.
Qed.

Lemma pickOther_keeps (idx : nat) (m : Machine) : Keeps P m (pickOther idx).
Proof.
  unfold pickOther. constructor.
  destruct (entropy m) as [| d ds]; [constructor |].
  destruct (resample idx d ds) as [[otherIdx later] |]; [| constructor].
  constructor; [apply (stable_entropy P_stable) | constructor].
Qed.

(** The tap listener maintains every stable property. *)
Lemma pointertap_keeps (opts : GameRoundOptions)
        (p : option PlayResponse) (ab : bool) (idx : nat) (m : Machine) :
  Keeps P m (pointertap opts p ab idx).
Proof.
  pose proof (stable_emit P_stable) as Hemit.
  pose proof (stable_diamond P_stable) as Hdia.
  unfold pointertap. cbn [bind reads]. constructor.
  destruct (chosenIdx m) eqn:Hchosen; [constructor |].
  apply Keeps_bind;
    [apply Keeps_modify; now apply (stable_accept P_stable) | intros _ m1].
  apply Keeps_bind;
    [apply Keeps_modify; apply (stable_disable P_stable) | intros _ m2].
  apply Keeps_bind.
  - destruct (ab || forceEndRound opts).
    + apply Keeps_bind; [apply finalizeRound_keeps | intros _ m3].
      unfold getLastEndRoundResponse.
      apply Keeps_bind; [apply Keeps_reads | intros last m4].
      apply Keeps_console. now apply Hemit.
    + apply Keeps_bind; [apply Keeps_console; now apply Hemit | intros _ m3].
      apply Keeps_bind; [apply Keeps_await | intros _ m4].
      destruct (isWin p).
      * apply Keeps_bind; [apply Keeps_modify, Hdia | intros _ m5].
        apply Keeps_bind; [apply Keeps_console; now apply Hemit | intros _ m6].
        apply Keeps_bind; [apply Keeps_await | intros _ m7].
        apply Keeps_bind; [apply Keeps_console; now apply Hemit | intros _ m8].
        apply Keeps_bind; [apply Keeps_await | intros _ m9].
        apply Keeps_bind; [apply Keeps_modify, Hdia | intros _ m10].
        apply Keeps_bind; [apply Keeps_console; now apply Hemit | intros _ m11].
        apply Keeps_bind; [apply finalizeRound_keeps | intros c m12].
        apply Keeps_bind; [apply Keeps_console; now apply Hemit | intros _ m13].
        destruct (hasShowWinModal opts && true); [| constructor].
        apply Keeps_bind; [apply Keeps_await | intros _ m14].
        unfold getLastWin.
        apply Keeps_bind; [apply Keeps_reads | intros w m15].
        apply Keeps_console. now apply Hemit.
      * apply Keeps_bind; [apply Keeps_await | intros _ m5].
        apply Keeps_bind; [apply Keeps_console; now apply Hemit | intros _ m6].
        apply Keeps_bind; [apply Keeps_await | intros _ m7].
        apply Keeps_bind; [apply pickOther_keeps | intros otherIdx m8].
        constructor. set (cups := List.length (cupInteractive m8)).
        apply Keeps_bind; [apply Keeps_console; now apply Hemit | intros _ m10].
        apply Keeps_bind; [apply Keeps_await | intros _ m11].
        apply Keeps_bind; [apply Keeps_modify, Hdia | intros _ m12].
        apply Keeps_bind;
          [destruct (otherIdx <? cups); constructor | intros _ m13].
        apply Keeps_bind; [apply Keeps_console; now apply Hemit | intros _ m14].
        apply Keeps_bind; [apply Keeps_await | intros _ m15].
        apply Keeps_bind; [apply Keeps_console; now apply Hemit | intros _ m16].
        apply Keeps_bind; [apply Keeps_await | intros _ m17].
        apply Keeps_bind; [apply Keeps_modify, Hdia | intros _ m18].
        apply Keeps_console. now apply Hemit.
  - intros _ m3. apply Keeps_bind.
    + destruct (hasLayout opts); [| constructor].
      apply Keeps_console. now apply Hemit.
    + intros _ m4. apply Keeps_modify. apply (stable_resolved P_stable).
Qed.

End KeepsFacts.

Lemma remove_nth_Forall (A : Type) (Q : A -> Prop) (l : list A) :
  forall j, Forall Q l -> Forall Q (Loop.remove_nth j l).
Proof.
  induction l as [| x l IH]; intros j Hl; [destruct j; constructor |].
  inversion Hl; subst. destruct j; cbn; [assumption |].
  constructor; [assumption | now apply IH].
Qed.

Lemma nth_error_Forall (A : Type) (Q : A -> Prop) (l : list A) (j : nat) (x : A) :
  Forall Q l -> nth_error l j = Some x -> Q x.
Proof.
  intros Hl Hj. rewrite Forall_forall in Hl. apply Hl.
  eapply nth_error_In. exact Hj.
Qed.

Section LoopFacts.

Variable P : Machine -> Prop.
Variable env : Env.
Variable listener : nat -> Async unit.
Hypothesis listener_keeps : forall idx m, Keeps P m (listener idx).

Lemma resume_keeps (t : Async unit) (others : list Loop.Task) (m : Machine) :
  Keeps P m t ->
  tasksKeep P others ->
  tasksKeep P (Loop.parked (Loop.resume t others m)) /\
  (P m -> P (Loop.mach (Loop.resume t others m))).
Proof.
  intros Ht Hothers. unfold Loop.resume.
  destruct (advance_keeps Ht) as [Hp Hk].
  destruct (Loop.advance t m) as [m' [| [w k] |]]; cbn in *;
    (split; [| exact Hp]); try assumption.
  apply Forall_app. split; [assumption |]. constructor; [exact Hk | constructor].
Qed.

Lemma step_keeps (turn : Loop.Turn) (st : Loop.State) :
  tasksKeep P (Loop.parked st) ->
  tasksKeep P (Loop.parked (Loop.step env listener turn st)) /\
  (P (Loop.mach st) -> P (Loop.mach (Loop.step env listener turn st))).
Proof.
  intro Htasks. unfold Loop.step.
  destruct (Loop.hung st); [split; [assumption | tauto] |].
  destruct turn as [idx | j].
  - destruct (idx <? List.length (cupInteractive (Loop.mach st)));
      [| split; [assumption | tauto]].
    apply resume_keeps; [apply listener_keeps | assumption].
  - destruct (nth_error (Loop.parked st) j) as [[w k] |] eqn:Hj;
      [| split; [assumption | tauto]].
    apply resume_keeps.
    + apply (@nth_error_Forall _ _ _ _ _ Htasks Hj).
    + now apply remove_nth_Forall.
Qed.

Lemma run_keeps (turns : list Loop.Turn) :
  forall st,
    tasksKeep P (Loop.parked st) ->
    tasksKeep P (Loop.parked (Loop.run env listener turns st)) /\
    (P (Loop.mach st) -> P (Loop.mach (Loop.run env listener turns st))).
Proof.
  induction turns as [| turn turns IH]; intros st Htasks; cbn.
  - split; [assumption | tauto].
  - destruct (@step_keeps turn st Htasks) as [Htasks' Hp].
    destruct (IH _ Htasks') as [Htasks'' Hp'].
    split; [exact Htasks'' | tauto].
Qed.

End LoopFacts.

Lemma selections_quiet (ev : Event) :
  isSelected ev = false -> selections [ev] = [].
Proof. destruct ev; cbn; intro H; try reflexivity; discriminate H. Qed.

Lemma oneSelection_stable (before : list nat) : Stable (oneSelection before).
Proof.
  constructor; unfold oneSelection.
  - intros idx [s ci dv ch pr en tr]; cbn. intros -> Hsel.
    rewrite selections_app, Hsel. reflexivity.
  - intros [s ci dv ch pr en tr]; cbn. tauto.
  - intros ev [s ci dv ch pr en tr] Hev; cbn.
    rewrite selections_app, (selections_quiet _ Hev), app_nil_r. tauto.
  - intros b [s ci dv ch pr en tr]; cbn. tauto.
  - intros c [s ci dv ch pr en tr]; cbn. tauto.
  - intros [s ci dv ch pr en tr]; cbn. tauto.
  - intros b [s ci dv ch pr en tr]; cbn. tauto.
  - intros l [s ci dv ch pr en tr]; cbn. tauto.
  - intros b [s ci dv ch pr en tr]; cbn. tauto.
Qed.

Lemma selected_stable (before : list nat) (i : nat) : Stable (selected before i).
Proof.
  constructor; unfold selected.
  - intros idx [s ci dv ch pr en tr]; cbn. intros -> [Hc _]. discriminate Hc.
  - intros [s ci dv ch pr en tr]; cbn. tauto.
  - intros ev [s ci dv ch pr en tr] Hev; cbn.
    rewrite selections_app, (selections_quiet _ Hev), app_nil_r. tauto.
  - intros b [s ci dv ch pr en tr]; cbn. tauto.
  - intros c [s ci dv ch pr en tr]; cbn. tauto.
  - intros [s ci dv ch pr en tr]; cbn. tauto.
  - intros b [s ci dv ch pr en tr]; cbn. tauto.
  - intros l [s ci dv ch pr en tr]; cbn. tauto.
  - intros b [s ci dv ch pr en tr]; cbn. tauto.
Qed.

Lemma all_switched_off (l : list bool) :
  Forall (fun b => b = false) (map (fun _ : bool => false) l).
Proof. induction l; cbn; constructor; auto. Qed.

Lemma cupsOff_stable : Stable cupsOff.
Proof.
  constructor; unfold cupsOff.
  - intros idx [s ci dv ch pr en tr]; cbn. tauto.
  - intros [s ci dv ch pr en tr]; cbn. intros _. apply all_switched_off.
  - intros ev [s ci dv ch pr en tr] Hev; cbn. tauto.
  - intros b [s ci dv ch pr en tr]; cbn. tauto.
  - intros c [s ci dv ch pr en tr]; cbn. tauto.
  - intros [s ci dv ch pr en tr]; cbn. tauto.
  - intros b [s ci dv ch pr en tr]; cbn. tauto.
  - intros l [s ci dv ch pr en tr]; cbn. tauto.
  - intros b [s ci dv ch pr en tr]; cbn. tauto.
Qed.

Lemma playingOrRest_stable : Stable playingOrRest.
Proof.
  constructor; unfold playingOrRest.
  - intros idx [s ci dv ch pr en tr]; cbn. tauto.
  - intros [s ci dv ch pr en tr]; cbn. tauto.
  - intros ev [s ci dv ch pr en tr] Hev; cbn. tauto.
  - intros b [[g rs er bal lw] ci dv ch pr en tr]; cbn. tauto.
  - intros c [[g rs er bal lw] ci dv ch pr en tr]; cbn. tauto.
  - intros [[g rs er bal lw] ci dv ch pr en tr]; cbn. tauto.
  - intros b [s ci dv ch pr en tr]; cbn. tauto.
  - intros l [s ci dv ch pr en tr]; cbn. tauto.
  - intros b [s ci dv ch pr en tr]; cbn. tauto.
Qed.

(** What the accepting tap has done when it first gives control back. *)
Lemma accepting_tap (opts : GameRoundOptions) (env : Env)
      (p : option PlayResponse) (ab : bool) (idx : nat) (st : Loop.State) :
  chosenIdx (Loop.mach st) = None ->
  Loop.hung st = false ->
  idx < List.length (cupInteractive (Loop.mach st)) ->
  let st1 := Loop.step env (pointertap opts p ab) (Loop.Tap idx) st in
  chosenIdx (Loop.mach st1) = Some idx /\ cupsOff (Loop.mach st1).
Proof.
  destruct st as [[s ci dv ch pr en tr] tasks h]. cbn [Loop.mach Loop.hung chosenIdx cupInteractive].
  intros -> -> Hidx. apply Nat.ltb_lt in Hidx.
  unfold Loop.step. cbn [Loop.hung Loop.mach Loop.parked cupInteractive].
  rewrite Hidx. unfold Loop.resume, pointertap, cupsOff. cbn.
  destruct (ab || forceEndRound opts); cbn;
    (split; [reflexivity | apply all_switched_off]).
Qed.

(** A tap that arrives once a selection is recorded changes nothing and
    leaves nothing suspended. *)
Lemma ignored_tap (opts : GameRoundOptions) (env : Env)
      (p : option PlayResponse) (ab : bool) (j : nat) (st : Loop.State) :
  chosenIdx (Loop.mach st) <> None ->
  Loop.step env (pointertap opts p ab) (Loop.Tap j) st = st.
Proof.
  destruct st as [m tasks h]. cbn [Loop.mach]. intro Hchosen.
  unfold Loop.step. cbn [Loop.hung Loop.mach Loop.parked].
  destruct h; [reflexivity |].
  destruct (j <? List.length (cupInteractive m)); [| reflexivity].
  unfold Loop.resume, pointertap. cbn [bind reads Loop.advance].
  destruct (chosenIdx m); [reflexivity | congruence].
Qed.

(* ================================================================== *)
(** ** One selection per round *)

(** C7.  Under every interleaving of taps with the resumptions of
    suspended listeners: at most one tap is accepted and it is the one in
    [chosenIdx]; once a selection is recorded, all later taps and
    resumptions leave it as it is, and each later tap changes nothing at
    all; and the tap that is accepted has recorded its selection and
    switched every cup off by the time it first gives control back (its
    first suspension), after which the cups stay off. *)
Theorem single_selection
        (opts : GameRoundOptions) (env : Env) (p : option PlayResponse)
        (ab : bool) (m : Machine) (turns : list Loop.Turn) :
  chosenIdx m = None ->
  let listener := pointertap opts p ab in
  let st := Loop.run env listener turns (Loop.listening m) in
  oneSelection (selections (trace m)) (Loop.mach st) /\
  (forall idx more,
      chosenIdx (Loop.mach st) = Some idx ->
      selected (selections (trace m)) idx
               (Loop.mach (Loop.run env listener more st))) /\
  (forall idx j more,
      chosenIdx (Loop.mach st) = Some idx ->
      let st' := Loop.run env listener more st in
      Loop.step env listener (Loop.Tap j) st' = st') /\
  (forall idx more,
      chosenIdx (Loop.mach st) = None ->
      Loop.hung st = false ->
      idx < List.length (cupInteractive (Loop.mach st)) ->
      let st1 := Loop.step env listener (Loop.Tap idx) st in
      chosenIdx (Loop.mach st1) = Some idx /\
      cupsOff (Loop.mach st1) /\
      cupsOff (Loop.mach (Loop.run env listener more st1))).
Proof.
  intros Hnone listener st.
  assert (Hkeeps : forall Q, Stable Q -> forall idx m', Keeps Q m' (listener idx)).
  { intros Q HQ idx m'. now apply pointertap_keeps. }
  assert (Hstart : forall Q, tasksKeep Q (Loop.parked (Loop.listening m)))
    by (intro Q; constructor).
  assert (Htasks : forall Q, Stable Q -> tasksKeep Q (Loop.parked st)).
  { intros Q HQ.
    exact (proj1 (@run_keeps Q env listener (Hkeeps Q HQ) turns
                             (Loop.listening m) (Hstart Q))). }
  assert (Hone : oneSelection (selections (trace m)) (Loop.mach st)).
  { apply (proj2 (@run_keeps _ env listener
                             (Hkeeps _ (oneSelection_stable _)) turns
                             (Loop.listening m) (Hstart _))).
    unfold oneSelection. cbn. rewrite Hnone. reflexivity. }
  assert (Hkept : forall idx more,
             chosenIdx (Loop.mach st) = Some idx ->
             selected (selections (trace m)) idx
                      (Loop.mach (Loop.run env listener more st))).
  { intros idx more Hidx.
    apply (proj2 (@run_keeps _ env listener
                             (Hkeeps _ (selected_stable _ idx)) more st
                             (Htasks _ (selected_stable _ idx)))).
    unfold oneSelection in Hone. rewrite Hidx in Hone. split; assumption. }
  split; [exact Hone |]. split; [exact Hkept |]. split.
  - intros idx j more Hidx st'.
    apply ignored_tap. destruct (Hkept idx more Hidx) as [Hc _].
    fold st' in Hc. rewrite Hc. discriminate.
  - intros idx more Hidx Hhung Hlt st1.
    destruct (@accepting_tap opts env p ab idx st Hidx Hhung Hlt)
      as [Hsel Hoff].
    fold listener in Hsel, Hoff. fold st1 in Hsel, Hoff.
    split; [exact Hsel |]. split; [exact Hoff |].
    apply (proj2 (@run_keeps _ env listener (Hkeeps _ cupsOff_stable) more st1
                             (proj1 (@step_keeps _ env listener
                                                 (Hkeeps _ cupsOff_stable)
                                                 (Loop.Tap idx) st
                                                 (Htasks _ cupsOff_stable))))).
    exact Hoff.
Qed.

(* ================================================================== *)
(** ** The phase during and after a round *)

Lemma canPickCup_run (env : Env) (m : Machine) :
  outcome (exec env canPickCup m) =
  Returned (GameState_eqb (gamestate (rgs m)) awaiting_pick).
Proof. reflexivity. Qed.

Lemma canStartPlay_run (env : Env) (m : Machine) :
  outcome (exec env canStartPlay m) =
  Returned (GameState_eqb (gamestate (rgs m)) rest).
Proof. reflexivity. Qed.

#[local] Arguments Nat.ltb : simpl never.

(** From phase [playing], every suspension of the accepted listener other
    than the import that precedes the win modal is in phase [playing]. *)
Lemma tap_phases (opts : GameRoundOptions) (env : Env)
      (p : option PlayResponse) (ab : bool) (idx : nat) (m : Machine) :
  chosenIdx m = None ->
  gamestate (rgs m) = playing ->
  forall w g,
    In (w, g) (phasesAwaited (exec env (pointertap opts p ab idx) m)) ->
    w <> ImportRgs -> g = playing.
Proof.
  destruct opts as [hl hw sk fe onr], m as [[g0 rs er b lw] ci dv ch pr en tr].
  cbn [chosenIdx gamestate rgs]. intros -> -> w g.
  unfold phasesAwaited, pointertap. cbn.
  destruct (ab || fe); cbn.
  - destruct (endRoundResult env) as [[[[a | |]]] | e]; cbn; destruct hl; cbn;
      intros Hin Hw; repeat (destruct Hin as [Hin | Hin]; [congruence |]);
      destruct Hin.
  - destruct (isWin p); cbn.
    + destruct (endRoundResult env) as [[[[a | |]]] | e]; cbn;
        destruct hw, hl; cbn;
        intros Hin Hw; repeat (destruct Hin as [Hin | Hin]; [congruence |]);
        destruct Hin.
    + destruct en as [| d ds]; cbn;
        [| destruct (resample idx d ds) as [[o later] |]; cbn;
           [destruct (o <? List.length (map (fun _ : bool => false) ci)); cbn;
            destruct hl; cbn |]];
        intros Hin Hw; repeat (destruct Hin as [Hin | Hin]; [congruence |]);
        destruct Hin.
Qed.

(** C10.  After a successful start the phase is [playing] and [canPickCup]
    answers false when the tap listeners are installed.  Under every
    interleaving of taps and resumptions the phase is never [awaiting_pick]
    or [resolving] (it is [playing], or [rest] once [finalizeRound] has set
    it), so [canPickCup] answers false whenever a tap is accepted; and at
    every suspension of the accepted listener's pick-and-reveal sequence
    (the lifts, holds, lowerings and the end-round call) the phase is
    [playing]. *)
Theorem orchestrated_flow_stays_playing
        (isActiveBetError : JsError -> bool) (opts : GameRoundOptions)
        (env : Env) (m : Machine) (p : PlayResponse) :
  skipAnimation opts = false ->
  gamestate (rgs m) = rest ->
  playRoundResult env 1%float = Fulfilled p ->
  let r0 := exec env (handleGameRound_setup isActiveBetError opts) m in
  let listener := pointertap opts (Some p) false in
  outcome r0 = Returned (Some p, false) /\
  gamestate (rgs (final r0)) = playing /\
  outcome (exec env canPickCup (final r0)) = Returned false /\
  (forall turns,
      let st := Loop.run env listener turns (Loop.listening (final r0)) in
      playingOrRest (Loop.mach st) /\
      gamestate (rgs (Loop.mach st)) <> awaiting_pick /\
      gamestate (rgs (Loop.mach st)) <> resolving /\
      outcome (exec env canPickCup (Loop.mach st)) = Returned false) /\
  (forall idx w g,
      In (w, g) (phasesAwaited (exec env (listener idx) (final r0))) ->
      w <> ImportRgs -> g = playing).
Proof.
  intros Hskip Hrest Hnet r0 listener.
  destruct (setup_started isActiveBetError opts env m Hskip Hrest Hnet)
    as [Hout0 [Hfin0 _]].
  fold r0 in Hout0, Hfin0.
  assert (Hplaying : gamestate (rgs (final r0)) = playing)
    by (rewrite Hfin0; reflexivity).
  assert (Hnone : chosenIdx (final r0) = None) by (rewrite Hfin0; reflexivity).
  split; [exact Hout0 |]. split; [exact Hplaying |].
  split; [rewrite canPickCup_run, Hplaying; reflexivity |].
  split.
  - intros turns st.
    assert (Hinv : playingOrRest (Loop.mach st)).
    { apply (proj2 (@run_keeps playingOrRest env listener
                               (fun idx m' =>
                                  pointertap_keeps playingOrRest_stable
                                                   opts (Some p) false idx m')
                               turns (Loop.listening (final r0))
                               (Forall_nil _))).
      left. exact Hplaying. }
    split; [exact Hinv |].
    rewrite canPickCup_run.
    destruct Hinv as [Hg | Hg]; rewrite Hg;
      (split; [discriminate |]); (split; [discriminate | reflexivity]).
  - intros idx w g. apply tap_phases; assumption.
Qed.

(** C9, at a concrete round.  The server reports a loss, the player taps
    cup 0, the random source yields 1, and the caller's [onRest] leaves the
    session alone.  The round completes, but the phase is still [playing]:
    [canStartPlay] answers false and the next [executeGameRound] is refused. *)
Lemma loss_round_ends_in_playing :
  let r := handleGameRound sampleIsActiveBetError plainOptions serverLoses [0]
                           (withEntropy [1] initialMachine) in
  outcome r = Returned tt /\
  finalizeCalls (trace (final r)) = 0 /\
  gamestate (rgs (final r)) = playing /\
  outcome (exec serverLoses canStartPlay (final r)) = Returned false /\
  outcome (exec serverLoses (executeGameRound sampleIsActiveBetError 1%float)
                (final r)) =
  Threw (Error "Cannot start play from state: playing").
Proof. vm_compute. repeat split; reflexivity. Qed.

(** The sibling paths do reach [rest]: the same round when the server
    reports a win, and when it reports an open bet. *)
Lemma settled_rounds_end_in_rest :
  (let r := handleGameRound sampleIsActiveBetError plainOptions serverWins [0]
                            initialMachine in
   outcome r = Returned tt /\ gamestate (rgs (final r)) = rest /\
   outcome (exec serverWins canStartPlay (final r)) = Returned true) /\
  (let r := handleGameRound sampleIsActiveBetError plainOptions
                            serverHasOpenBet [0] initialMachine in
   outcome r = Returned tt /\ gamestate (rgs (final r)) = rest /\
   outcome (exec serverHasOpenBet canStartPlay (final r)) = Returned true).
Proof. vm_compute. repeat split; reflexivity. Qed.

(* ================================================================== *)
(** ** The theorems at the sample inputs *)

Lemma win_path_witness :
  let r := handleGameRound sampleIsActiveBetError plainOptions serverWins
                           [1; 2; 0] initialMachine in
  reveals (trace (final r)) = [1] /\
  selections (trace (final r)) = [1] /\
  finalizeCalls (trace (final r)) = 1 /\
  outcome r = Returned tt /\
  winReports (trace (final r)) = [0.6%float].
Proof.
  destruct (@win_path sampleIsActiveBetError plainOptions serverWins
                      initialMachine winResponse
                      (mkRound (Some 0.6%float) (Some "win"%string)) 0.6%float
                      1 [2; 0]
                      eq_refl eq_refl eq_refl eq_refl eq_refl eq_refl eq_refl)
    as [Hreveal [Hsel [Hfin [Hwin _]]]].
  - cbn. lia.
  - destruct (Hwin confirmation5 eq_refl) as [Hout Hreport].
    split; [exact Hreveal |]. split; [exact Hsel |]. split; [exact Hfin |].
    split; [exact Hout | exact Hreport].
Defined.

Lemma loss_path_witness :
  let r := handleGameRound sampleIsActiveBetError plainOptions serverLoses
                           [0; 1] (withEntropy [0; 0; 2] initialMachine) in
  finalizeCalls (trace (final r)) = 0 /\
  exists shown,
    reveals (trace (final r)) = shown /\
    Forall (fun o => o < 3 /\ o <> 0) shown /\
    outcome r = Returned tt /\ List.length shown = 1.
Proof.
  destruct (@loss_path sampleIsActiveBetError plainOptions serverLoses
                       (withEntropy [0; 0; 2] initialMachine) lossResponse
                       0 [1] eq_refl eq_refl eq_refl eq_refl eq_refl)
    as [Hfin [shown [Hreveal [Hother Hleave]]]].
  - cbn. lia.
  - cbn. lia.
  - cbn. repeat constructor.
  - destruct Hleave as [Hout Hone].
    + cbn. right. right. left. discriminate.
    + split; [exact Hfin |]. exists shown.
      split; [exact Hreveal |]. split; [exact Hother |].
      split; [exact Hout | exact Hone].
Defined.

Lemma open_bet_path_witness :
  let r0 := exec serverHasOpenBet
                 (handleGameRound_setup sampleIsActiveBetError plainOptions)
                 initialMachine in
  let r := handleGameRound sampleIsActiveBetError plainOptions serverHasOpenBet
                           [2; 0; 1] initialMachine in
  outcome r0 = Returned (None, true) /\
  balance (rgs (final r0)) = 999%float /\
  selections (trace (final r)) = [2] /\
  finalizeCalls (trace (final r)) = 1 /\
  filter isAnimation (trace (final r)) = [] /\
  outcome r = Returned tt.
Proof.
  destruct (@open_bet_path sampleIsActiveBetError plainOptions serverHasOpenBet
                           initialMachine (ApiRejection "ERR_IPB") 2 [0; 1]
                           eq_refl eq_refl eq_refl eq_refl)
    as [Hsetup [Hbal [_ [Hsel [Hfin [Hquiet Hdone]]]]]].
  - cbn. lia.
  - split; [exact Hsetup |]. split; [exact Hbal |]. split; [exact Hsel |].
    split; [exact Hfin |]. split; [exact Hquiet |].
    exact (Hdone confirmation5 eq_refl).
Defined.

Lemma single_selection_witness :
  let listener := pointertap plainOptions (Some winResponse) false in
  let m := set_cupInteractive [true; true; true] (inPhase playing initialMachine) in
  let st := Loop.run serverWins listener
                     [Loop.Tap 1; Loop.Tap 2; Loop.Wake 0; Loop.Tap 0]
                     (Loop.listening m) in
  chosenIdx (Loop.mach st) = Some 1 /\
  selections (trace (Loop.mach st)) = [1] /\
  cupsOff (Loop.mach (Loop.step serverWins listener (Loop.Tap 1)
                                (Loop.listening m))).
Proof.
  intros listener m st.
  destruct (@single_selection plainOptions serverWins (Some winResponse) false
                              m [Loop.Tap 1; Loop.Tap 2; Loop.Wake 0; Loop.Tap 0]
                              eq_refl)
    as [_ [Hkept _]].
  destruct (@single_selection plainOptions serverWins (Some winResponse) false
                              m [] eq_refl)
    as [_ [_ [_ Haccept]]].
  destruct (Hkept 1 [] eq_refl) as [Hchosen Hsel].
  split; [exact Hchosen |]. split; [exact Hsel |].
  destruct (Haccept 1 [] eq_refl eq_refl) as [_ [Hoff _]].
  - cbn. lia.
  - exact Hoff.
Defined.

Lemma orchestrated_flow_stays_playing_witness :
  let r0 := exec serverWins
                 (handleGameRound_setup sampleIsActiveBetError plainOptions)
                 initialMachine in
  let st := Loop.run serverWins (pointertap plainOptions (Some winResponse) false)
                     [Loop.Tap 0; Loop.Wake 0]
                     (Loop.listening (final r0)) in
  gamestate (rgs (final r0)) = playing /\
  gamestate (rgs (Loop.mach st)) <> awaiting_pick /\
  outcome (exec serverWins canPickCup (Loop.mach st)) = Returned false.
Proof.
  destruct (@orchestrated_flow_stays_playing
              sampleIsActiveBetError plainOptions serverWins initialMachine
              winResponse eq_refl eq_refl eq_refl)
    as [_ [Hplaying [_ [Hloop _]]]].
  destruct (Hloop [Loop.Tap 0; Loop.Wake 0]) as [_ [Hnot [_ Hpick]]].
  split; [exact Hplaying |]. split; [exact Hnot | exact Hpick].
Defined.

(* ================================================================== *)
(** ** Further properties of [rgs/state.ts] *)

(** X1.  The three gate predicates only read the phase: betting and starting
    are allowed in exactly the same phase ([rest]), picking only in
    [awaiting_pick], so starting and picking are never allowed together and
    in [playing] and [resolving] nothing is allowed. *)
Theorem gates_exclusive (env : Env) (m : Machine) :
  exec env canAdjustBet m = exec env canStartPlay m /\
  exists start pick,
    exec env canStartPlay m = mkRun (Returned start) m [] /\
    exec env canPickCup m = mkRun (Returned pick) m [] /\
    (start = true <-> gamestate (rgs m) = rest) /\
    (pick = true <-> gamestate (rgs m) = awaiting_pick) /\
    start && pick = false.
Proof.
  split; [reflexivity |].
  exists (GameState_eqb (gamestate (rgs m)) rest),
         (GameState_eqb (gamestate (rgs m)) awaiting_pick).
  split; [reflexivity |]. split; [reflexivity |].
  split; [apply GameState_eqb_eq |]. split; [apply GameState_eqb_eq |].
  destruct (gamestate (rgs m)); reflexivity.
Qed.

(** X2.  [startResolving(); handleLoss()] brings the phase to [rest] from
    every phase without throwing, and changes nothing else in the session;
    [handleLoss()] alone does so from every phase except [awaiting_pick],
    where it is refused. *)
Theorem resolving_then_loss_resets (env : Env) (m : Machine) :
  let r := exec env (startResolving ;; handleLoss) m in
  outcome r = Returned tt /\
  rgs (final r) = set_gamestate rest (rgs m) /\
  awaited r = [] /\
  (gamestate (rgs (final (exec env handleLoss m))) = rest <->
   gamestate (rgs m) <> awaiting_pick).
Proof.
  destruct m as [[g rs er b lw] ci dv ch pr en tr].
  destruct g; cbn; repeat split; try reflexivity; try discriminate;
    intro H; try reflexivity; try discriminate H; exfalso; apply H; reflexivity.
Qed.

(** X3.  Every phase other than [rest] has a single way in: when a request
    changes the phase, [playing] was entered from [rest], [awaiting_pick]
    from [playing] and [resolving] from [awaiting_pick]; and [rest] is never
    entered from [awaiting_pick]. *)
Theorem phase_entries (env : Env) (g : GameState) (m : Machine) :
  let before := gamestate (rgs m) in
  let after := gamestate (rgs (final (exec env (setGameState g) m))) in
  after <> before ->
  after = g /\
  match after with
  | playing => before = rest
  | awaiting_pick => before = playing
  | resolving => before = awaiting_pick
  | rest => before = playing \/ before = resolving
  end.
Proof.
  destruct m as [[g0 rs er b lw] ci dv ch pr en tr].
  destruct g0, g; cbn; intro H; try (exfalso; apply H; reflexivity);
    split; try reflexivity; auto.
Qed.

Lemma phase_entries_witness :
  gamestate (rgs (final (exec serverWins (setGameState playing)
                              initialMachine))) = playing /\
  gamestate (rgs initialMachine) = rest.
Proof.
  destruct (@phase_entries serverWins playing initialMachine) as [Hg Hfrom].
  - cbn. discriminate.
  - split; [exact Hg | reflexivity].
Defined.

Section MoreStateFacts.

Variable isActiveBetError : JsError -> bool.

(** X4.  A successful [executeGameRound] from [rest] replaces the whole
    session: phase [playing], the response recorded (what [getLastResponse]
    returns), the previous end-round confirmation cleared, the balance lowered
    by the bet, and [lastWin] the multiplier times the bet, or 0 when the
    response has no round or no multiplier.  It suspends once. *)
Theorem executeGameRound_success_session
        (env : Env) (betAmount : float) (m : Machine) (p : PlayResponse) :
  gamestate (rgs m) = rest ->
  playRoundResult env betAmount = Fulfilled p ->
  let r := exec env (executeGameRound isActiveBetError betAmount) m in
  outcome r = Returned p /\
  rgs (final r) =
  mkSession playing (Some p) None (balance (rgs m) - betAmount)%float
            (lastWinOf betAmount p) /\
  outcome (exec env getLastResponse (final r)) = Returned (Some p) /\
  outcome (exec env getLastEndRoundResponse (final r)) = Returned None /\
  List.length (awaited r) = 1 /\
  ((round p = None \/ exists rd, round p = Some rd /\ payoutMultiplier rd = None) ->
   lastWin (rgs (final r)) = 0%float).
Proof.
  destruct m as [[g rs er b lw] ci dv ch pr en tr]. cbn [rgs gamestate balance].
  intros -> Hnet. unfold lastWinOf. cbn. rewrite Hnet.
  destruct p as [[[[pm |] [st |]] |]]; cbn;
    try destruct (String.eqb st ""); cbn;
    repeat split; try reflexivity;
    intros [H | [rd [H1 H2]]]; try discriminate H; try reflexivity;
    inversion H1; subst; discriminate H2.
Qed.

(** X5.  When the start-round call is rejected, nothing but the phase and
    the balance has changed: the bet stays deducted (it is never added
    back), the recorded response, confirmation and [lastWin] are still those
    of the previous round, and the error is rethrown.  The phase is
    [playing] when the error is classified as an open bet and [rest]
    otherwise. *)
Theorem executeGameRound_rejected_session
        (env : Env) (betAmount : float) (m : Machine) (e : JsError) :
  gamestate (rgs m) = rest ->
  playRoundResult env betAmount = Rejected e ->
  let r := exec env (executeGameRound isActiveBetError betAmount) m in
  outcome r = Threw e /\
  rgs (final r) =
  mkSession (if isActiveBetError e then playing else rest)
            (response (rgs m)) (endRoundResponse (rgs m))
            (balance (rgs m) - betAmount)%float (lastWin (rgs m)).
Proof.
  destruct m as [[g rs er b lw] ci dv ch pr en tr].
  cbn [rgs gamestate balance response endRoundResponse lastWin].
  intros -> Hnet. cbn. rewrite Hnet. cbn.
  destruct (isActiveBetError e); cbn; split; reflexivity.
Qed.

(** X6.  A second [executeGameRound] issued while the first one is still
    waiting for the server throws the invalid-state error without deducting
    anything, but its catch block (the error not being classified as an
    open bet) sets the phase back to [rest].  The first call then completes
    normally with the phase at [rest] instead of [playing], and a third call
    issued in between would have been accepted and would have deducted a
    second bet while the first round was still in flight. *)
Theorem overlapping_starts
        (env : Env) (betAmount : float) (m : Machine) (p : PlayResponse) :
  gamestate (rgs m) = rest ->
  playRoundResult env betAmount = Fulfilled p ->
  isActiveBetError (Error "Cannot start play from state: playing") = false ->
  exists m1 task,
    Loop.advance (discard (executeGameRound isActiveBetError betAmount)) m =
    (m1, Loop.Suspended task) /\
    let second := exec env (executeGameRound isActiveBetError betAmount) m1 in
    let first := resumeAlone env task (final second) in
    let third := exec env (executeGameRound isActiveBetError betAmount)
                      (final second) in
    outcome second = Threw (Error "Cannot start play from state: playing") /\
    balance (rgs (final second)) = (balance (rgs m) - betAmount)%float /\
    gamestate (rgs (final second)) = rest /\
    outcome first = Returned tt /\
    balance (rgs (final first)) = (balance (rgs m) - betAmount)%float /\
    gamestate (rgs (final first)) = rest /\
    outcome third = Returned p /\
    balance (rgs (final third)) =
    (balance (rgs m) - betAmount - betAmount)%float.
Proof.
  destruct m as [[g rs er b lw] ci dv ch pr en tr]. cbn [rgs gamestate balance].
  intros -> Hnet Hcls. unfold discard. cbn.
  eexists. eexists. split; [reflexivity |].
  cbn. rewrite Hcls. cbn. rewrite Hnet.
  destruct p as [[[[pm |] [st |]] |]]; cbn;
    try destruct (String.eqb st ""); cbn; rewrite ?Hcls; cbn;
    repeat split; reflexivity.
Qed.

End MoreStateFacts.

Lemma executeGameRound_success_session_witness :
  let r := exec serverLoses (executeGameRound sampleIsActiveBetError 2%float)
                initialMachine in
  outcome r = Returned lossResponse /\
  rgs (final r) = mkSession playing (Some lossResponse) None 998%float 0%float.
Proof.
  destruct (@executeGameRound_success_session
              sampleIsActiveBetError serverLoses 2%float initialMachine
              lossResponse eq_refl eq_refl) as [Hout [Hses _]].
  split; [exact Hout | exact Hses].
Defined.

Lemma executeGameRound_rejected_session_witness :
  let r := exec serverHasOpenBet
                (executeGameRound sampleIsActiveBetError 1%float)
                initialMachine in
  outcome r = Threw (ApiRejection "ERR_IPB") /\
  rgs (final r) = mkSession playing None None 999%float 0%float.
Proof.
  exact (@executeGameRound_rejected_session
           sampleIsActiveBetError serverHasOpenBet 1%float initialMachine
           (ApiRejection "ERR_IPB") eq_refl eq_refl).
Defined.

Lemma overlapping_starts_witness :
  exists m1 task,
    Loop.advance (discard (executeGameRound sampleIsActiveBetError 1%float))
                 initialMachine = (m1, Loop.Suspended task) /\
    balance (rgs (final (exec serverWins
                              (executeGameRound sampleIsActiveBetError 1%float)
                              (final (exec serverWins
                                           (executeGameRound
                                              sampleIsActiveBetError 1%float)
                                           m1))))) = 998%float.
Proof.
  destruct (@overlapping_starts sampleIsActiveBetError serverWins 1%float
                                initialMachine winResponse
                                eq_refl eq_refl eq_refl)
    as [m1 [task [Hadv [_ [_ [_ [_ [_ [_ [_ Hthird]]]]]]]]]].
  exists m1, task. split; [exact Hadv | exact Hthird].
Defined.

(* ================================================================== *)
(** ** Further properties of [game/gameRoundHelper.ts] *)

(** X7.  The loop returns the first random value that differs from the
    selection, having consumed exactly the values before it (all equal to
    the selection), and leaves the values after it for later; it fails to
    leave only when every value it is given equals the selection. *)
Theorem resample_first (idx : nat) (ds : list nat) :
  forall d,
    match resample idx d ds with
    | Some (otherIdx, later) =>
        exists skipped,
          d :: ds = skipped ++ otherIdx :: later /\
          Forall (fun x => x = idx) skipped /\
          otherIdx <> idx
    | None => Forall (fun x => x = idx) (d :: ds)
    end.
Proof.
  induction ds as [| d' ds IH]; intro d; cbn [resample];
    destruct (d =? idx) eqn:Hd.
  - apply Nat.eqb_eq in Hd. subst. repeat constructor.
  - apply Nat.eqb_neq in Hd. exists []. repeat split; [constructor | exact Hd].
  - apply Nat.eqb_eq in Hd. subst d. specialize (IH d').
    destruct (resample idx d' ds) as [[o later] |].
    + destruct IH as [skipped [Heq [Hall Hneq]]].
      exists (idx :: skipped). cbn. rewrite Heq.
      repeat split; [constructor; [reflexivity | exact Hall] | exact Hneq].
    + constructor; [reflexivity | exact IH].
  - apply Nat.eqb_neq in Hd. exists []. repeat split; [constructor | exact Hd].
Qed.

Section MoreRounds.

Variable isActiveBetError : JsError -> bool.
Variable opts : GameRoundOptions.
Variable env : Env.

#[local] Arguments Nat.ltb : simpl never.

Lemma dispatchTaps_miss (listener : nat -> Async unit) (taps : list nat)
      (m : Machine) :
  Forall (fun idx => List.length (cupInteractive m) <= idx) taps ->
  dispatchTaps env listener taps m = mkRun (Returned tt) m [].
Proof.
  induction 1 as [| idx taps Hidx _ IH]; cbn [dispatchTaps]; [reflexivity |].
  apply Nat.ltb_ge in Hidx. rewrite Hidx. exact IH.
Qed.

(** The setup when [skipAnimation] is set: no round is started. *)
Lemma setup_skipped (m : Machine) :
  skipAnimation opts = true ->
  let r := exec env (handleGameRound_setup isActiveBetError opts) m in
  outcome r = Returned (None, false) /\
  final r =
  mkMachine (rgs m) (map (fun _ => true) (cupInteractive m)) (diamondVisible m)
            None false (entropy m) (trace m).
Proof.
  destruct m as [s ci dv ch pr en tr]. intro Hskip.
  cbn. rewrite Hskip. cbn. split; reflexivity.
Qed.

(** The setup when the start-round call fails for good. *)
Lemma setup_failed (m : Machine) (e : JsError) :
  skipAnimation opts = false ->
  gamestate (rgs m) = rest ->
  playRoundResult env 1%float = Rejected e ->
  isActiveBetError e = false ->
  let r := exec env (handleGameRound_setup isActiveBetError opts) m in
  outcome r = Threw e /\
  final r =
  mkMachine
    (mkSession rest (response (rgs m)) (endRoundResponse (rgs m))
               (balance (rgs m) - 1)%float (lastWin (rgs m)))
    (cupInteractive m) (diamondVisible m) (chosenIdx m) (pickResolved m)
    (entropy m)
    (trace m ++ [LogBalanceDeducted 1%float (balance (rgs m) - 1)%float;
                 LogTransition rest playing; CallPlayRound 1%float;
                 ErrorRoundFailed e; LogTransition playing rest]).
Proof.
  destruct m as [[g rs er b lw] ci dv ch pr en tr].
  cbn [gamestate rgs balance response endRoundResponse lastWin cupInteractive
       diamondVisible chosenIdx pickResolved entropy trace].
  intros Hskip -> Hnet Hcls.
  cbn. rewrite Hskip. cbn. rewrite Hnet. cbn. rewrite Hcls. cbn. rewrite Hcls.
  cbn. split; [reflexivity |]. rewrite <- !app_assoc. reflexivity.
Qed.

(** The setup when a round is already being played. *)
Lemma setup_refused (m : Machine) :
  skipAnimation opts = false ->
  gamestate (rgs m) = playing ->
  isActiveBetError (Error "Cannot start play from state: playing") = false ->
  let r := exec env (handleGameRound_setup isActiveBetError opts) m in
  outcome r = Threw (Error "Cannot start play from state: playing") /\
  rgs (final r) = set_gamestate rest (rgs m) /\
  cupInteractive (final r) = cupInteractive m /\
  playRoundCalls (trace (final r)) = playRoundCalls (trace m).
Proof.
  destruct m as [[g rs er b lw] ci dv ch pr en tr].
  cbn [gamestate rgs cupInteractive trace]. intros Hskip -> Hcls.
  cbn. rewrite Hskip. cbn. rewrite Hcls. cbn. rewrite Hcls. cbn.
  repeat split.
  assert (Happ : forall a c : list Event,
             playRoundCalls (a ++ c) = playRoundCalls a + playRoundCalls c).
  { intros a c. induction a as [| ev a IH]; [reflexivity |].
    destruct ev; cbn; rewrite ?IH; reflexivity. }
  rewrite !Happ. cbn. lia.
Qed.

Lemma handleGameRound_throws (m : Machine) (e : JsError) (taps : list nat) :
  outcome (exec env (handleGameRound_setup isActiveBetError opts) m) = Threw e ->
  let r := handleGameRound isActiveBetError opts env taps m in
  outcome r = Threw e /\
  final r = final (exec env (handleGameRound_setup isActiveBetError opts) m).
Proof.
  intro Hsetup. cbn zeta. unfold handleGameRound. rewrite Hsetup.
  split; reflexivity.
Qed.

Lemma onRestCalls_app (a b : list Event) :
  onRestCalls (a ++ b) = onRestCalls a + onRestCalls b.
Proof.
  induction a as [| ev a IH]; [reflexivity |].
  destruct ev; simpl; rewrite ?IH; reflexivity.
Qed.

Lemma balanceUpdates_app (a b : list Event) :
  balanceUpdates (a ++ b) = balanceUpdates a ++ balanceUpdates b.
Proof.
  induction a as [| ev a IH]; [reflexivity |].
  destruct ev; simpl; rewrite ?IH; reflexivity.
Qed.

Lemma startTrace_silent (betAmount b : float) (p : PlayResponse) :
  onRestCalls (startTrace betAmount b p) = 0 /\
  balanceUpdates (startTrace betAmount b p) = [].
Proof.
  unfold startTrace. destruct p as [[[pm [st |]] |]]; cbn;
    try destruct (String.eqb st ""); cbn; split; reflexivity.
Qed.

(** X8.  There is no timeout on the pick: as long as no tap reaches a cup,
    a started round never settles.  The bet stays deducted, the phase stays
    [playing], every cup stays switched on and [onRest] is not called. *)
Theorem no_pick_never_settles
        (m : Machine) (p : PlayResponse) (taps : list nat) :
  skipAnimation opts = false ->
  gamestate (rgs m) = rest ->
  playRoundResult env 1%float = Fulfilled p ->
  Forall (fun idx => List.length (cupInteractive m) <= idx) taps ->
  let r := handleGameRound isActiveBetError opts env taps m in
  outcome r = Pending /\
  rgs (final r) =
  mkSession playing (Some p) None (balance (rgs m) - 1)%float
            (lastWinOf 1%float p) /\
  chosenIdx (final r) = None /\
  Forall (fun b => b = true) (cupInteractive (final r)) /\
  onRestCalls (trace (final r)) = onRestCalls (trace m).
Proof.
  intros Hskip Hrest Hnet Hmiss r.
  destruct (setup_started isActiveBetError opts env m Hskip Hrest Hnet)
    as [Hout0 [Hfin0 _]].
  destruct (startTrace_silent 1%float (balance (rgs m)) p) as [Hr0 _].
  subst r. unfold handleGameRound. rewrite Hout0, Hfin0.
  rewrite dispatchTaps_miss
    by (cbn [cupInteractive]; rewrite length_map; exact Hmiss).
  cbn [outcome final awaited pickResolved rgs chosenIdx cupInteractive trace].
  rewrite onRestCalls_app, Hr0, Nat.add_0_r.
  repeat split.
  clear. induction (cupInteractive m); cbn; constructor; auto.
Qed.

(** X9.  When [finalizeRound] fails inside the tap listener, nobody catches
    the error: the pick promise is never resolved, so [handleGameRound]
    never settles and [onRest] is never called, whatever taps follow.  The
    phase stays [playing] and the balance stays at the locally deducted
    value.  This holds on the win path and on the open-bet recovery path. *)
Theorem finalize_failure_never_settles
        (m : Machine) (e : JsError) (idx : nat) (taps : list nat) :
  skipAnimation opts = false ->
  gamestate (rgs m) = rest ->
  endRoundResult env = Rejected e ->
  idx < List.length (cupInteractive m) ->
  (forceEndRound opts = false /\
   exists p, playRoundResult env 1%float = Fulfilled p /\ isWin (Some p) = true) \/
  (exists e0, playRoundResult env 1%float = Rejected e0 /\
              isActiveBetError e0 = true) ->
  let r := handleGameRound isActiveBetError opts env (idx :: taps) m in
  outcome r = Pending /\
  gamestate (rgs (final r)) = playing /\
  balance (rgs (final r)) = (balance (rgs m) - 1)%float /\
  finalizeCalls (trace (final r)) = finalizeCalls (trace m) + 1 /\
  onRestCalls (trace (final r)) = onRestCalls (trace m) /\
  balanceUpdates (trace (final r)) = balanceUpdates (trace m).
Proof.
  intros Hskip Hrest Hend Hidx Hpath r.
  destruct Hpath as [[Hforce [p [Hnet Hwin]]] | [e0 [Hnet Hcls]]].
  - destruct (setup_started isActiveBetError opts env m Hskip Hrest Hnet)
      as [Hout0 [Hfin0 _]].
    destruct (startTrace_silent 1%float (balance (rgs m)) p) as [Hr0 Hb0].
    destruct (startTrace_quiet 1%float (balance (rgs m)) p) as [_ [Hf0 _]].
    set (m0 := final (exec env (handleGameRound_setup isActiveBetError opts) m))
      in *.
    assert (Hidx0 : idx < List.length (cupInteractive m0)).
    { rewrite Hfin0. cbn [cupInteractive]. now rewrite length_map. }
    assert (Hnone : chosenIdx m0 = None) by (rewrite Hfin0; reflexivity).
    destruct (tap_win_failed opts env (Some p) idx m0 Hnone Hforce Hwin Hend)
      as [Hout1 [Hfin1 _]].
    destruct (@handleGameRound_first_tap isActiveBetError opts env
                                         m (Some p) false idx taps m0 _ _
                                         Hout0 eq_refl Hidx0 Hout1 Hfin1)
      as [Hout [Hfin _]]; [cbn; discriminate |].
    fold r in Hout, Hfin. cbn [pickResolved] in Hout, Hfin.
    assert (Hres : pickResolved m0 = false) by (rewrite Hfin0; reflexivity).
    rewrite Hres in Hout, Hfin. rewrite Hfin, Hout. cbn [rgs trace].
    rewrite Hfin0. cbn [rgs gamestate balance trace].
    rewrite !finalizeCalls_app, !onRestCalls_app, !balanceUpdates_app,
      Hr0, Hb0, Hf0. cbn. rewrite ?app_nil_r.
    repeat split; lia.
  - destruct (setup_open_bet isActiveBetError opts env m Hskip Hrest Hnet Hcls)
      as [Hout0 [Hfin0 _]].
    set (m0 := final (exec env (handleGameRound_setup isActiveBetError opts) m))
      in *.
    assert (Hidx0 : idx < List.length (cupInteractive m0)).
    { rewrite Hfin0. cbn [cupInteractive]. now rewrite length_map. }
    assert (Hnone : chosenIdx m0 = None) by (rewrite Hfin0; reflexivity).
    destruct (tap_recovery_failed opts env None true idx m0 Hnone eq_refl Hend)
      as [Hout1 [Hfin1 _]].
    destruct (@handleGameRound_first_tap isActiveBetError opts env
                                         m None true idx taps m0 _ _
                                         Hout0 eq_refl Hidx0 Hout1 Hfin1)
      as [Hout [Hfin _]]; [cbn; discriminate |].
    fold r in Hout, Hfin. cbn [pickResolved] in Hout, Hfin.
    assert (Hres : pickResolved m0 = false) by (rewrite Hfin0; reflexivity).
    rewrite Hres in Hout, Hfin. rewrite Hfin, Hout. cbn [rgs trace].
    rewrite Hfin0. cbn [rgs gamestate balance trace].
    rewrite !finalizeCalls_app, !onRestCalls_app, !balanceUpdates_app.
    cbn. rewrite ?app_nil_r.
    repeat split; lia.
Qed.

End MoreRounds.

Lemma playRoundCalls_app (a b : list Event) :
  playRoundCalls (a ++ b) = playRoundCalls a + playRoundCalls b.
Proof.
  induction a as [| ev a IH]; [reflexivity |].
  destruct ev; simpl; rewrite ?IH; reflexivity.
Qed.

Section RoundSessions.

Variable isActiveBetError : JsError -> bool.
Variable opts : GameRoundOptions.
Variable env : Env.

(** X10.  With [skipAnimation] set (and [forceEndRound] not), no round is
    started: no start-round call is made and the session is left as it was
    (nothing is deducted, the phase is not changed).  The pick is still
    awaited, and since there is no response it is treated as a loss: the
    diamond is shown under another cup and [finalizeRound] is not called. *)
Theorem skipped_start_is_a_loss
        (m : Machine) (idx : nat) (taps : list nat)
        (d otherIdx : nat) (ds later : list nat) :
  skipAnimation opts = true ->
  forceEndRound opts = false ->
  idx < List.length (cupInteractive m) ->
  entropy m = d :: ds ->
  resample idx d ds = Some (otherIdx, later) ->
  otherIdx < List.length (cupInteractive m) ->
  let r := handleGameRound isActiveBetError opts env (idx :: taps) m in
  outcome r = Returned tt /\
  rgs (final r) = onRest opts (rgs m) /\
  playRoundCalls (trace (final r)) = playRoundCalls (trace m) /\
  finalizeCalls (trace (final r)) = finalizeCalls (trace m) /\
  reveals (trace (final r)) = reveals (trace m) ++ [otherIdx] /\
  otherIdx <> idx.
Proof.
  intros Hskip Hforce Hidx Hent Hloop Hother r.
  destruct (setup_skipped isActiveBetError opts env m Hskip) as [Hout0 Hfin0].
  set (m0 := final (exec env (handleGameRound_setup isActiveBetError opts) m))
    in *.
  assert (Hlen0 : List.length (cupInteractive m0) =
                  List.length (cupInteractive m)).
  { rewrite Hfin0. cbn [cupInteractive]. apply length_map. }
  assert (Hidx0 : idx < List.length (cupInteractive m0)) by (now rewrite Hlen0).
  assert (Hcup : otherIdx < List.length (cupInteractive m0))
    by (now rewrite Hlen0).
  assert (Hnone : chosenIdx m0 = None) by (rewrite Hfin0; reflexivity).
  assert (Hent0 : entropy m0 = d :: ds) by (rewrite Hfin0; exact Hent).
  destruct (tap_loss opts env None idx m0 Hnone Hforce eq_refl
                     Hent0 Hloop Hcup) as [Hout1 [Hfin1 _]].
  destruct (@handleGameRound_first_tap isActiveBetError opts env
                                       m None false idx taps m0 _ _
                                       Hout0 eq_refl Hidx0 Hout1 Hfin1)
    as [Hout [Hfin _]]; [cbn; discriminate |].
  fold r in Hout, Hfin. cbn [pickResolved] in Hout, Hfin.
  rewrite Hfin, Hout. cbn [with_rgs emit rgs trace]. rewrite Hfin0.
  cbn [rgs trace].
  rewrite !playRoundCalls_app, !finalizeCalls_app, !reveals_app.
  destruct (resample_sound _ _ _ Hloop) as [Hneq _].
  destruct (hasLayout opts); cbn; rewrite ?Nat.add_0_r, ?app_nil_r;
    repeat split; try reflexivity; exact Hneq.
Qed.

(** X11.  [forceEndRound] overrides the outcome: even when the server
    reports a win, the accepted tap only calls [finalizeRound].  No cup is
    lifted, no diamond shown and no win modal opened, [onBalanceUpdate]
    receives the confirmed amount, and the round completes with the
    confirmed balance.  It ends in [rest] when the confirmed amount is not
    [null]; with a [null] or missing amount it completes all the same, but
    the phase is still [playing] and the balance is 0 or NaN. *)
Theorem forced_end_skips_reveal
        (m : Machine) (p : PlayResponse) (c : EndRoundResponse)
        (idx : nat) (taps : list nat) :
  skipAnimation opts = false ->
  forceEndRound opts = true ->
  gamestate (rgs m) = rest ->
  playRoundResult env 1%float = Fulfilled p ->
  endRoundResult env = Fulfilled c ->
  idx < List.length (cupInteractive m) ->
  let r := handleGameRound isActiveBetError opts env (idx :: taps) m in
  outcome r = Returned tt /\
  rgs (final r) =
  onRest opts (mkSession
                 (if notNull (amount (Types.balance c)) then rest else playing)
                 (Some p) (Some c)
                 (toNumber (amount (Types.balance c)) / 1000000)%float
                 (lastWinOf 1%float p)) /\
  filter isAnimation (trace (final r)) = filter isAnimation (trace m) /\
  winReports (trace (final r)) = winReports (trace m) /\
  finalizeCalls (trace (final r)) = finalizeCalls (trace m) + 1 /\
  balanceUpdates (trace (final r)) =
  balanceUpdates (trace m) ++ [amount (Types.balance c)].
Proof.
  intros Hskip Hforce Hrest Hnet Hend Hidx r.
  destruct (setup_started isActiveBetError opts env m Hskip Hrest Hnet)
    as [Hout0 [Hfin0 _]].
  destruct (startTrace_quiet 1%float (balance (rgs m)) p)
    as [_ [Hf0 [_ [Hw0 Ha0]]]].
  destruct (startTrace_silent 1%float (balance (rgs m)) p) as [_ Hb0].
  set (m0 := final (exec env (handleGameRound_setup isActiveBetError opts) m))
    in *.
  assert (Hidx0 : idx < List.length (cupInteractive m0)).
  { rewrite Hfin0. cbn [cupInteractive]. now rewrite length_map. }
  assert (Hnone : chosenIdx m0 = None) by (rewrite Hfin0; reflexivity).
  assert (Hplaying : gamestate (rgs m0) = playing) by (rewrite Hfin0; reflexivity).
  assert (Hrec : false || forceEndRound opts = true) by (now rewrite Hforce).
  destruct (tap_recovery_settled opts env (Some p) false idx m0
                                 Hnone Hplaying Hrec Hend)
    as [Hout1 [Hfin1 _]].
  destruct (@handleGameRound_first_tap isActiveBetError opts env
                                       m (Some p) false idx taps m0 _ _
                                       Hout0 eq_refl Hidx0 Hout1 Hfin1)
    as [Hout [Hfin _]]; [cbn; discriminate |].
  fold r in Hout, Hfin. cbn [pickResolved] in Hout, Hfin.
  rewrite Hfin, Hout. cbn [with_rgs emit rgs trace]. rewrite Hfin0.
  cbn [rgs trace response lastWin].
  rewrite !filter_app, !winReports_app, !finalizeCalls_app,
    !balanceUpdates_app, Hf0, Hw0, Ha0, Hb0.
  unfold settledPhase, settledLog.
  destruct (notNull (amount (Types.balance c))), (hasLayout opts); cbn;
    rewrite ?app_nil_r, ?Nat.add_0_r; repeat split; reflexivity.
Qed.

(** X12.  On the open-bet recovery path [onBalanceUpdate] always receives
    the amount that [finalizeRound] has just confirmed, never the fallback
    amount 0 and never a confirmation kept from an earlier round; the
    round completes with the confirmed balance, while the recorded response
    and [lastWin] are still those of the round before.  It ends in [rest]
    when the confirmed amount is not [null], and in [playing] (the balance
    being 0 or NaN) when it is [null] or missing. *)
Theorem recovery_reports_confirmed_balance
        (m : Machine) (e : JsError) (c : EndRoundResponse)
        (idx : nat) (taps : list nat) :
  skipAnimation opts = false ->
  gamestate (rgs m) = rest ->
  playRoundResult env 1%float = Rejected e ->
  isActiveBetError e = true ->
  endRoundResult env = Fulfilled c ->
  idx < List.length (cupInteractive m) ->
  let r := handleGameRound isActiveBetError opts env (idx :: taps) m in
  outcome r = Returned tt /\
  balanceUpdates (trace (final r)) =
  balanceUpdates (trace m) ++ [amount (Types.balance c)] /\
  rgs (final r) =
  onRest opts (mkSession
                 (if notNull (amount (Types.balance c)) then rest else playing)
                 (response (rgs m)) (Some c)
                 (toNumber (amount (Types.balance c)) / 1000000)%float
                 (lastWin (rgs m))).
Proof.
  intros Hskip Hrest Hnet Hcls Hend Hidx r.
  destruct (setup_open_bet isActiveBetError opts env m Hskip Hrest Hnet Hcls)
    as [Hout0 [Hfin0 _]].
  set (m0 := final (exec env (handleGameRound_setup isActiveBetError opts) m))
    in *.
  assert (Hidx0 : idx < List.length (cupInteractive m0)).
  { rewrite Hfin0. cbn [cupInteractive]. now rewrite length_map. }
  assert (Hnone : chosenIdx m0 = None) by (rewrite Hfin0; reflexivity).
  assert (Hplaying : gamestate (rgs m0) = playing) by (rewrite Hfin0; reflexivity).
  destruct (tap_recovery_settled opts env None true idx m0
                                 Hnone Hplaying eq_refl Hend)
    as [Hout1 [Hfin1 _]].
  destruct (@handleGameRound_first_tap isActiveBetError opts env
                                       m None true idx taps m0 _ _
                                       Hout0 eq_refl Hidx0 Hout1 Hfin1)
    as [Hout [Hfin _]]; [cbn; discriminate |].
  fold r in Hout, Hfin. cbn [pickResolved] in Hout, Hfin.
  rewrite Hfin, Hout. cbn [with_rgs emit rgs trace]. rewrite Hfin0.
  cbn [rgs trace response lastWin]. rewrite !balanceUpdates_app.
  unfold settledPhase, settledLog.
  destruct (notNull (amount (Types.balance c))), (hasLayout opts); cbn;
    rewrite ?app_nil_r; repeat split; reflexivity.
Qed.

(** X13.  After a winning round whose end-round call is fulfilled, the
    session holds the balance confirmed by the server, whatever the local
    balance was before (the local deduction of the bet leaves no trace);
    [lastWin] is that of the response, [onBalanceUpdate] has received the
    confirmed amount and [onRest] has been called once.  The phase is [rest]
    when the confirmed amount is not [null]; when it is [null] or missing the
    round completes in the same way, the win modal included, but the phase
    is still [playing] and the balance is 0 or NaN. *)
Theorem win_round_session
        (m : Machine) (p : PlayResponse) (c : EndRoundResponse)
        (idx : nat) (taps : list nat) :
  skipAnimation opts = false ->
  forceEndRound opts = false ->
  gamestate (rgs m) = rest ->
  playRoundResult env 1%float = Fulfilled p ->
  isWin (Some p) = true ->
  endRoundResult env = Fulfilled c ->
  idx < List.length (cupInteractive m) ->
  let r := handleGameRound isActiveBetError opts env (idx :: taps) m in
  outcome r = Returned tt /\
  rgs (final r) =
  onRest opts (mkSession
                 (if notNull (amount (Types.balance c)) then rest else playing)
                 (Some p) (Some c)
                 (toNumber (amount (Types.balance c)) / 1000000)%float
                 (lastWinOf 1%float p)) /\
  balanceUpdates (trace (final r)) =
  balanceUpdates (trace m) ++ [amount (Types.balance c)] /\
  winReports (trace (final r)) =
  winReports (trace m) ++
  (if hasShowWinModal opts then [lastWinOf 1%float p] else []) /\
  onRestCalls (trace (final r)) = onRestCalls (trace m) + 1.
Proof.
  intros Hskip Hforce Hrest Hnet Hwin Hend Hidx r.
  destruct (setup_started isActiveBetError opts env m Hskip Hrest Hnet)
    as [Hout0 [Hfin0 _]].
  destruct (startTrace_silent 1%float (balance (rgs m)) p) as [Hr0 Hb0].
  set (m0 := final (exec env (handleGameRound_setup isActiveBetError opts) m))
    in *.
  assert (Hidx0 : idx < List.length (cupInteractive m0)).
  { rewrite Hfin0. cbn [cupInteractive]. now rewrite length_map. }
  assert (Hnone : chosenIdx m0 = None) by (rewrite Hfin0; reflexivity).
  assert (Hplaying : gamestate (rgs m0) = playing) by (rewrite Hfin0; reflexivity).
  destruct (tap_win_settled opts env (Some p) idx m0
                            Hnone Hplaying Hforce Hwin Hend)
    as [Hout1 [Hfin1 _]].
  destruct (@handleGameRound_first_tap isActiveBetError opts env
                                       m (Some p) false idx taps m0 _ _
                                       Hout0 eq_refl Hidx0 Hout1 Hfin1)
    as [Hout [Hfin _]]; [cbn; discriminate |].
  fold r in Hout, Hfin. cbn [pickResolved] in Hout, Hfin.
  rewrite Hfin, Hout. cbn [with_rgs emit rgs trace]. rewrite Hfin0.
  cbn [rgs trace response lastWin].
  destruct (startTrace_quiet 1%float (balance (rgs m)) p)
    as [_ [_ [_ [Hw0 _]]]].
  rewrite !balanceUpdates_app, !onRestCalls_app, !winReports_app, Hr0, Hb0, Hw0.
  unfold settledPhase, settledLog.
  destruct (notNull (amount (Types.balance c))),
           (hasShowWinModal opts), (hasLayout opts); cbn;
    rewrite ?app_nil_r, ?Nat.add_0_r; repeat split; reflexivity.
Qed.

(** X14.  When the start-round call fails with an error that is not an
    open bet, [handleGameRound] rejects with that error whatever the player
    taps: the cups are not switched on, no listener gets a selection and
    [onRest] is not called.  The phase is back at [rest], but the bet stays
    deducted from the balance. *)
Theorem failed_start_rejects
        (m : Machine) (e : JsError) (taps : list nat) :
  skipAnimation opts = false ->
  gamestate (rgs m) = rest ->
  playRoundResult env 1%float = Rejected e ->
  isActiveBetError e = false ->
  let r := handleGameRound isActiveBetError opts env taps m in
  outcome r = Threw e /\
  rgs (final r) =
  mkSession rest (response (rgs m)) (endRoundResponse (rgs m))
            (balance (rgs m) - 1)%float (lastWin (rgs m)) /\
  cupInteractive (final r) = cupInteractive m /\
  chosenIdx (final r) = chosenIdx m /\
  selections (trace (final r)) = selections (trace m) /\
  onRestCalls (trace (final r)) = onRestCalls (trace m).
Proof.
  intros Hskip Hrest Hnet Hcls r.
  destruct (setup_failed isActiveBetError opts env m Hskip Hrest Hnet Hcls)
    as [Hout0 Hfin0].
  destruct (@handleGameRound_throws isActiveBetError opts env m e taps Hout0)
    as [Hout Hfin].
  fold r in Hout, Hfin. rewrite Hout, Hfin, Hfin0.
  cbn [rgs cupInteractive chosenIdx trace].
  rewrite selections_app, onRestCalls_app. cbn.
  rewrite app_nil_r, Nat.add_0_r. repeat split; reflexivity.
Qed.

(** X15.  After a losing round has completed (with an [onRest] that leaves
    the session alone) the phase is still [playing], so the next
    [handleGameRound] is rejected with the invalid-state error: it makes no
    start-round call and deducts nothing.  Its catch block sets the phase to
    [rest], so the attempt after that one starts a round normally. *)
Theorem round_after_a_loss
        (m : Machine) (p : PlayResponse) (idx : nat) (taps taps' : list nat)
        (d otherIdx : nat) (ds later : list nat) :
  skipAnimation opts = false ->
  forceEndRound opts = false ->
  (forall s, onRest opts s = s) ->
  isActiveBetError (Error "Cannot start play from state: playing") = false ->
  gamestate (rgs m) = rest ->
  playRoundResult env 1%float = Fulfilled p ->
  isWin (Some p) = false ->
  idx < List.length (cupInteractive m) ->
  entropy m = d :: ds ->
  resample idx d ds = Some (otherIdx, later) ->
  otherIdx < List.length (cupInteractive m) ->
  let lost := handleGameRound isActiveBetError opts env (idx :: taps) m in
  let next := handleGameRound isActiveBetError opts env taps' (final lost) in
  let again := exec env (handleGameRound_setup isActiveBetError opts)
                    (final next) in
  outcome lost = Returned tt /\
  outcome next = Threw (Error "Cannot start play from state: playing") /\
  playRoundCalls (trace (final next)) = playRoundCalls (trace (final lost)) /\
  rgs (final next) =
  mkSession rest (Some p) None (balance (rgs m) - 1)%float
            (lastWinOf 1%float p) /\
  outcome again = Returned (Some p, false) /\
  balance (rgs (final again)) = (balance (rgs m) - 1 - 1)%float.
Proof.
  intros Hskip Hforce Hrestcb Hcls Hrest Hnet Hloss Hidx Hent Hloop Hother
         lost next again.
  destruct (@loss_round_phase isActiveBetError opts env m p idx taps
                              d otherIdx ds later
                              Hskip Hforce Hrest Hnet Hloss Hidx Hent Hloop
                              Hother) as [Hout1 [Hses1 _]].
  fold lost in Hout1, Hses1. rewrite Hrestcb in Hses1.
  assert (Hplaying : gamestate (rgs (final lost)) = playing)
    by (rewrite Hses1; reflexivity).
  destruct (setup_refused isActiveBetError opts env (final lost)
                          Hskip Hplaying Hcls)
    as [Hout2 [Hses2 [_ Hcalls2]]].
  destruct (@handleGameRound_throws isActiveBetError opts env (final lost) _
                                    taps' Hout2) as [Hout Hfin].
  fold next in Hout, Hfin.
  assert (Hses : rgs (final next) =
                 mkSession rest (Some p) None (balance (rgs m) - 1)%float
                           (lastWinOf 1%float p)).
  { rewrite Hfin, Hses2, Hses1. reflexivity. }
  assert (Hrest' : gamestate (rgs (final next)) = rest)
    by (rewrite Hses; reflexivity).
  destruct (setup_started isActiveBetError opts env (final next)
                          Hskip Hrest' Hnet) as [Hout3 [Hfin3 _]].
  fold again in Hout3, Hfin3.
  split; [exact Hout1 |]. split; [exact Hout |].
  split; [rewrite Hfin; exact Hcalls2 |]. split; [exact Hses |].
  split; [exact Hout3 |]. rewrite Hfin3. cbn [rgs balance]. rewrite Hses.
  reflexivity.
Qed.

End RoundSessions.

(* ================================================================== *)
(** ** Properties of [ui/stateManager.ts] *)

Lemma setCupsEnabled_each (enabled : bool) (cupSprites : list Control) :
  Forall (fun cup => switchedOn cup = enabled /\ interactive cup = enabled)
         (StateManager.setCupsEnabled cupSprites enabled).
Proof.
  unfold StateManager.setCupsEnabled.
  induction cupSprites as [| [em cur al int ls sc] cups IH]; cbn [map];
    constructor; try exact IH.
  destruct enabled; cbn; split; reflexivity.
Qed.

(** X16.  [updateUIStates] is synchronous and leaves the session alone.
    Afterwards the play button and both bet buttons accept pointer events
    exactly in phase [rest] and every cup exactly in phase [awaiting_pick],
    so the play button and a cup are never switched on together and in
    [playing] and [resolving] nothing is; the number of cups is unchanged
    and the logged values are the phase and the three gates. *)
Theorem updateUIStates_gates
        (env : Env) (m : Machine) (c : StateManager.UIComponents) :
  let g := gamestate (rgs m) in
  exists c' log,
    exec env (StateManager.updateUIStates c) m = mkRun (Returned (c', log)) m [] /\
    log = StateManager.mkUiLog g (GameState_eqb g rest) (GameState_eqb g rest)
                               (GameState_eqb g awaiting_pick) /\
    switchedOn (StateManager.betMinusButton c') = GameState_eqb g rest /\
    switchedOn (StateManager.betPlusButton c') = GameState_eqb g rest /\
    switchedOn (StateManager.playButton c') = GameState_eqb g rest /\
    Forall (fun cup => switchedOn cup = GameState_eqb g awaiting_pick /\
                       interactive cup = GameState_eqb g awaiting_pick)
           (StateManager.cupSprites c') /\
    List.length (StateManager.cupSprites c') =
    List.length (StateManager.cupSprites c) /\
    (switchedOn (StateManager.playButton c') = true ->
     Forall (fun cup => interactive cup = false) (StateManager.cupSprites c')).
Proof.
  destruct m as [[g0 rs er b lw] ci dv ch pr en tr].
  destruct c as [[em1 cur1 al1 int1 ls1 sc1] [em2 cur2 al2 int2 ls2 sc2]
                   [em3 cur3 al3 int3 ls3 sc3] cups].
  cbn [rgs gamestate]. cbv zeta.
  exists (StateManager.mkUIComponents
            (fst (StateManager.setBetButtonsEnabled
                    (mkControl em1 cur1 al1 int1 ls1 sc1)
                    (mkControl em2 cur2 al2 int2 ls2 sc2)
                    (GameState_eqb g0 rest)))
            (snd (StateManager.setBetButtonsEnabled
                    (mkControl em1 cur1 al1 int1 ls1 sc1)
                    (mkControl em2 cur2 al2 int2 ls2 sc2)
                    (GameState_eqb g0 rest)))
            (StateManager.setPlayButtonEnabled
               (mkControl em3 cur3 al3 int3 ls3 sc3) (GameState_eqb g0 rest))
            (StateManager.setCupsEnabled cups (GameState_eqb g0 awaiting_pick))).
  eexists. split; [reflexivity |]. split; [reflexivity |].
  cbn [StateManager.betMinusButton StateManager.betPlusButton
       StateManager.playButton StateManager.cupSprites fst snd].
  split; [destruct g0; reflexivity |]. split; [destruct g0; reflexivity |].
  split; [destruct g0; reflexivity |].
  split; [apply setCupsEnabled_each |].
  split; [unfold StateManager.setCupsEnabled; apply length_map |].
  intro Hplay.
  assert (Hg : GameState_eqb g0 awaiting_pick = false).
  { destruct g0; try reflexivity; discriminate Hplay. }
  rewrite Hg.
  eapply Forall_impl; [| apply setCupsEnabled_each].
  cbn. intros cup [_ H]. exact H.
Qed.

(** X17.  Switching cups off removes their hover listeners and resets their
    scale to 1, and switching them on touches neither; in both cases every
    other listener of a cup (the [pointertap] listener that
    [handleGameRound] installs among them) stays attached and the cup's
    [alpha] is untouched. *)
Theorem setCupsEnabled_listeners (enabled : bool) (cupSprites : list Control) :
  let after := StateManager.setCupsEnabled cupSprites enabled in
  map alpha after = map alpha cupSprites /\
  (enabled = true ->
   map listeners after = map listeners cupSprites /\
   map scale after = map scale cupSprites) /\
  (enabled = false ->
   Forall (fun cup => scale cup = (1%float, 1%float) /\
                      ~ In "pointerover"%string (listeners cup) /\
                      ~ In "pointerout"%string (listeners cup)) after) /\
  map (fun cup => filter (fun n => negb (String.eqb n "pointerover") &&
                                   negb (String.eqb n "pointerout"))
                         (listeners cup)) after =
  map (fun cup => filter (fun n => negb (String.eqb n "pointerover") &&
                                   negb (String.eqb n "pointerout"))
                         (listeners cup)) cupSprites.
Proof.
  assert (Hfilter : forall ls : list string,
             filter (fun n => negb (String.eqb n "pointerover") &&
                              negb (String.eqb n "pointerout"))
                    (filter (fun n => negb (String.eqb n "pointerout"))
                            (filter (fun n => negb (String.eqb n "pointerover"))
                                    ls)) =
             filter (fun n => negb (String.eqb n "pointerover") &&
                              negb (String.eqb n "pointerout")) ls).
  { induction ls as [| n ls IH]; [reflexivity |]. cbn [filter].
    destruct (String.eqb n "pointerover") eqn:H1; cbn [negb andb];
      [exact IH |].
    cbn [filter]. destruct (String.eqb n "pointerout") eqn:H2; cbn [negb];
      [exact IH |].
    cbn [filter]. rewrite H1, H2. cbn [negb andb]. now rewrite IH. }
  assert (Hgone : forall (name : string) (ls : list string),
             ~ In name (filter (fun n => negb (String.eqb n name)) ls)).
  { intros name ls Hin. apply filter_In in Hin. destruct Hin as [_ Hne].
    rewrite String.eqb_refl in Hne. discriminate Hne. }
  unfold StateManager.setCupsEnabled. cbv zeta.
  split; [| split; [| split]].
  - rewrite map_map. apply map_ext. intros [em cur al int ls sc].
    destruct enabled; reflexivity.
  - intros ->. split; rewrite map_map; apply map_ext;
      intros [em cur al int ls sc]; reflexivity.
  - intros ->. apply Forall_forall. intros cup Hin.
    apply in_map_iff in Hin. destruct Hin as [[em cur al int ls sc] [<- _]].
    cbn. split; [reflexivity |]. split.
    + intro Hin. apply filter_In in Hin. destruct Hin as [Hin _].
      now apply Hgone in Hin.
    + apply Hgone.
  - rewrite map_map. apply map_ext. intros [em cur al int ls sc].
    destruct enabled; cbn; [reflexivity | apply Hfilter].
Qed.

(** X18.  [updateUIStates] is idempotent: applied to its own result in the
    same session it changes nothing. *)
Theorem updateUIStates_idempotent
        (env : Env) (m : Machine) (c : StateManager.UIComponents) :
  exists c' log,
    exec env (StateManager.updateUIStates c) m = mkRun (Returned (c', log)) m [] /\
    exec env (StateManager.updateUIStates c') m = mkRun (Returned (c', log)) m [].
Proof.
  assert (Hcups : forall enabled cups,
             StateManager.setCupsEnabled
               (StateManager.setCupsEnabled cups enabled) enabled =
             StateManager.setCupsEnabled cups enabled).
  { intros enabled cups. unfold StateManager.setCupsEnabled.
    rewrite map_map. apply map_ext_in. intros [em cur al int ls sc] _.
    assert (Hidem : forall (name : string) (l : list string),
               filter (fun n => negb (String.eqb n name))
                      (filter (fun n => negb (String.eqb n name)) l) =
               filter (fun n => negb (String.eqb n name)) l).
    { intros name l. induction l as [| n l IH]; [reflexivity |]. cbn [filter].
      destruct (String.eqb n name) eqn:Hn; cbn [negb]; [exact IH |].
      cbn [filter]. rewrite Hn. cbn [negb]. now rewrite IH. }
    assert (Hswap : forall l : list string,
               filter (fun n => negb (String.eqb n "pointerover"))
                      (filter (fun n => negb (String.eqb n "pointerout"))
                              (filter (fun n => negb (String.eqb n "pointerover"))
                                      l)) =
               filter (fun n => negb (String.eqb n "pointerout"))
                      (filter (fun n => negb (String.eqb n "pointerover")) l)).
    { intro l. induction l as [| n l IH]; [reflexivity |]. cbn [filter].
      destruct (String.eqb n "pointerover") eqn:H1; cbn [negb]; [exact IH |].
      cbn [filter]. destruct (String.eqb n "pointerout") eqn:H2; cbn [negb];
        [exact IH |].
      cbn [filter]. rewrite H1. cbn [negb]. now rewrite IH. }
    destruct enabled; cbn; [reflexivity |].
    now rewrite Hswap, Hidem. }
  assert (Hrun : forall c0,
             exec env (StateManager.updateUIStates c0) m =
             mkRun (Returned
                      (StateManager.mkUIComponents
                         (fst (StateManager.setBetButtonsEnabled
                                 (StateManager.betMinusButton c0)
                                 (StateManager.betPlusButton c0)
                                 (GameState_eqb (gamestate (rgs m)) rest)))
                         (snd (StateManager.setBetButtonsEnabled
                                 (StateManager.betMinusButton c0)
                                 (StateManager.betPlusButton c0)
                                 (GameState_eqb (gamestate (rgs m)) rest)))
                         (StateManager.setPlayButtonEnabled
                            (StateManager.playButton c0)
                            (GameState_eqb (gamestate (rgs m)) rest))
                         (StateManager.setCupsEnabled
                            (StateManager.cupSprites c0)
                            (GameState_eqb (gamestate (rgs m)) awaiting_pick)),
                       StateManager.mkUiLog
                         (gamestate (rgs m))
                         (GameState_eqb (gamestate (rgs m)) rest)
                         (GameState_eqb (gamestate (rgs m)) rest)
                         (GameState_eqb (gamestate (rgs m)) awaiting_pick)))
                   m []) by reflexivity.
  eexists. eexists. split; [apply Hrun |].
  rewrite Hrun.
  cbn [StateManager.betMinusButton StateManager.betPlusButton
       StateManager.playButton StateManager.cupSprites].
  rewrite Hcups.
  destruct c as [[em1 cur1 al1 int1 ls1 sc1] [em2 cur2 al2 int2 ls2 sc2]
                   [em3 cur3 al3 int3 ls3 sc3] cups].
  cbn [StateManager.betMinusButton StateManager.betPlusButton
       StateManager.playButton StateManager.cupSprites].
  destruct (GameState_eqb (gamestate (rgs m)) rest); reflexivity.
Qed.

Lemma updateUIStates_run
      (env : Env) (m : Machine) (c : StateManager.UIComponents) :
  exec env (StateManager.updateUIStates c) m =
  mkRun (Returned
           (StateManager.mkUIComponents
              (fst (StateManager.setBetButtonsEnabled
                      (StateManager.betMinusButton c)
                      (StateManager.betPlusButton c)
                      (GameState_eqb (gamestate (rgs m)) rest)))
              (snd (StateManager.setBetButtonsEnabled
                      (StateManager.betMinusButton c)
                      (StateManager.betPlusButton c)
                      (GameState_eqb (gamestate (rgs m)) rest)))
              (StateManager.setPlayButtonEnabled
                 (StateManager.playButton c)
                 (GameState_eqb (gamestate (rgs m)) rest))
              (StateManager.setCupsEnabled
                 (StateManager.cupSprites c)
                 (GameState_eqb (gamestate (rgs m)) awaiting_pick)),
            StateManager.mkUiLog
              (gamestate (rgs m))
              (GameState_eqb (gamestate (rgs m)) rest)
              (GameState_eqb (gamestate (rgs m)) rest)
              (GameState_eqb (gamestate (rgs m)) awaiting_pick)))
        m [].
Proof. reflexivity. Qed.

(** X19.  While [handleGameRound] waits for the pick after a successful
    start, its own setup has switched every cup on, but the phase is
    [playing]: a run of [updateUIStates] at that moment reports all three
    gates closed and switches every cup off again, together with the play
    button. *)
Theorem ui_gate_during_pick_wait
        (isActiveBetError : JsError -> bool) (opts : GameRoundOptions)
        (env : Env) (m : Machine) (p : PlayResponse)
        (c : StateManager.UIComponents) :
  skipAnimation opts = false ->
  gamestate (rgs m) = rest ->
  playRoundResult env 1%float = Fulfilled p ->
  let m0 := final (exec env (handleGameRound_setup isActiveBetError opts) m) in
  Forall (fun b => b = true) (cupInteractive m0) /\
  exists c' log,
    exec env (StateManager.updateUIStates c) m0 = mkRun (Returned (c', log)) m0 [] /\
    StateManager.cupsEnabled log = false /\
    StateManager.playEnabled log = false /\
    StateManager.betEnabled log = false /\
    switchedOn (StateManager.playButton c') = false /\
    Forall (fun cup => interactive cup = false /\ switchedOn cup = false)
           (StateManager.cupSprites c').
Proof.
  intros Hskip Hrest Hnet m0.
  destruct (setup_started isActiveBetError opts env m Hskip Hrest Hnet)
    as [_ [Hfin0 _]].
  fold m0 in Hfin0.
  assert (Hplaying : gamestate (rgs m0) = playing) by (rewrite Hfin0; reflexivity).
  split.
  - rewrite Hfin0. cbn [cupInteractive]. clear.
    induction (cupInteractive m); cbn; constructor; auto.
  - eexists. eexists. split; [apply updateUIStates_run |].
    rewrite Hplaying.
    cbn [StateManager.cupsEnabled StateManager.playEnabled
         StateManager.betEnabled StateManager.playButton
         StateManager.cupSprites GameState_eqb].
    repeat (split; [reflexivity |]).
    split; [destruct (StateManager.playButton c); reflexivity |].
    eapply Forall_impl; [| apply setCupsEnabled_each].
    cbn. intros cup [H1 H2]. split; assumption.
Qed.

(* ================================================================== *)
(** ** Properties of the UI game control helper *)

Lemma enableControls_on (controls : option (list (option Control))) :
  GameControl.allOf GameControl.isOn (GameControl.enableControls controls).
Proof.
  destruct controls as [l |]; cbn; [| exact I].
  induction l as [| [[em cur al int ls sc] |] l IH]; cbn; constructor;
    try exact IH; cbn; auto.
Qed.

Lemma disableControls_off (controls : option (list (option Control))) :
  GameControl.allOf GameControl.isOff (GameControl.disableControls controls).
Proof.
  destruct controls as [l |]; cbn; [| exact I].
  induction l as [| [[em cur al int ls sc] |] l IH]; cbn; constructor;
    try exact IH; cbn; auto.
Qed.

(** X20.  After [updateControlsForState], for controls as declared (each
    entry a control, or [null]/[undefined], which is skipped, and each group
    possibly missing): every bet button and the play button that is present
    is switched on exactly for [rest] and every cup that is present exactly
    for [awaiting_pick], everything else being switched off (event mode
    "passive").  A missing group stays missing and a skipped entry stays in
    its place, the listeners and the scale of every control are untouched,
    the state is logged and the getter is unchanged. *)
Theorem updateControlsForState_table
        (state : GameState) (h : GameControl.Helper) :
  let h' := GameControl.updateControlsForState state h in
  let before := GameControl.currentControls h in
  let after := GameControl.currentControls h' in
  GameControl.allOf (if GameState_eqb state rest then GameControl.isOn
                     else GameControl.isOff)
                    (GameControl.betButtons after) /\
  (if GameState_eqb state rest then GameControl.isOn else GameControl.isOff)
    (GameControl.playButton after) /\
  GameControl.allOf (if GameState_eqb state awaiting_pick then GameControl.isOn
                     else GameControl.isOff)
                    (GameControl.cups after) /\
  option_map (@List.length _) (GameControl.betButtons after) =
  option_map (@List.length _) (GameControl.betButtons before) /\
  option_map (@List.length _) (GameControl.cups after) =
  option_map (@List.length _) (GameControl.cups before) /\
  option_map (map (option_map restOf)) (GameControl.betButtons after) =
  option_map (map (option_map restOf)) (GameControl.betButtons before) /\
  option_map restOf (GameControl.playButton after) =
  option_map restOf (GameControl.playButton before) /\
  option_map (map (option_map restOf)) (GameControl.cups after) =
  option_map (map (option_map restOf)) (GameControl.cups before) /\
  GameControl.logged h' = GameControl.logged h ++ [state] /\
  GameControl.getCurrentGameState h' = GameControl.getCurrentGameState h.
Proof.
  assert (Hlen_on : forall g, option_map (@List.length _)
                                         (GameControl.enableControls g) =
                              option_map (@List.length _) g).
  { intros [l |]; cbn; [now rewrite length_map | reflexivity]. }
  assert (Hlen_off : forall g, option_map (@List.length _)
                                          (GameControl.disableControls g) =
                               option_map (@List.length _) g).
  { intros [l |]; cbn; [now rewrite length_map | reflexivity]. }
  assert (Hbtn_on : forall b, GameControl.isOn (GameControl.enableButton b)).
  { intros [[em cur al int ls sc] |]; cbn; auto. }
  assert (Hbtn_off : forall b, GameControl.isOff (GameControl.disableButton b)).
  { intros [[em cur al int ls sc] |]; cbn; auto. }
  assert (Hrest_on : forall g, option_map (map (option_map restOf))
                                          (GameControl.enableControls g) =
                               option_map (map (option_map restOf)) g).
  { intros [l |]; cbn; [| reflexivity]. f_equal. rewrite map_map.
    apply map_ext. intros [[em cur al int ls sc] |]; reflexivity. }
  assert (Hrest_off : forall g, option_map (map (option_map restOf))
                                           (GameControl.disableControls g) =
                                option_map (map (option_map restOf)) g).
  { intros [l |]; cbn; [| reflexivity]. f_equal. rewrite map_map.
    apply map_ext. intros [[em cur al int ls sc] |]; reflexivity. }
  assert (Hrb_on : forall b, option_map restOf (GameControl.enableButton b) =
                             option_map restOf b).
  { intros [[em cur al int ls sc] |]; reflexivity. }
  assert (Hrb_off : forall b, option_map restOf (GameControl.disableButton b) =
                              option_map restOf b).
  { intros [[em cur al int ls sc] |]; reflexivity. }
  destruct h as [[bets play cups] getter log].
  destruct state; cbn -[GameControl.enableControls GameControl.disableControls
                        GameControl.enableButton GameControl.disableButton];
    repeat split;
    auto using enableControls_on, disableControls_off.
Qed.

(** X21.  The last call decides: the controls after
    [updateControlsForState(s2)] do not depend on an earlier
    [updateControlsForState(s1)]; in particular the function is idempotent. *)
Theorem updateControlsForState_last_wins
        (s1 s2 : GameState) (h : GameControl.Helper) :
  GameControl.currentControls
    (GameControl.updateControlsForState s2
       (GameControl.updateControlsForState s1 h)) =
  GameControl.currentControls (GameControl.updateControlsForState s2 h).
Proof.
  assert (He : forall f g : Control -> Control,
             (forall c, f (g c) = f c) ->
             forall l : list (option Control),
               map (option_map f) (map (option_map g) l) =
               map (option_map f) l).
  { intros f g Hfg l. rewrite map_map. apply map_ext.
    intros [c |]; cbn; [now rewrite Hfg | reflexivity]. }
  assert (Hee : forall c, GameControl.enableControl (GameControl.enableControl c)
                          = GameControl.enableControl c)
    by (intros [em cur al int ls sc]; reflexivity).
  assert (Hed : forall c, GameControl.enableControl (GameControl.disableControl c)
                          = GameControl.enableControl c)
    by (intros [em cur al int ls sc]; reflexivity).
  assert (Hde : forall c, GameControl.disableControl (GameControl.enableControl c)
                          = GameControl.disableControl c)
    by (intros [em cur al int ls sc]; reflexivity).
  assert (Hdd : forall c, GameControl.disableControl (GameControl.disableControl c)
                          = GameControl.disableControl c)
    by (intros [em cur al int ls sc]; reflexivity).
  destruct h as [[[bets |] [play |] [cups |]] getter log];
    destruct s1, s2; cbn;
    rewrite ?(He _ _ Hee), ?(He _ _ Hed), ?(He _ _ Hde), ?(He _ _ Hdd),
      ?Hee, ?Hed, ?Hde, ?Hdd; reflexivity.
Qed.

(** X22.  [registerGameControls] stores the controls before it asks for the
    state.  If [setGameStateGetter] has not been called, the call throws a
    [TypeError] and the controls stay registered exactly as passed, unstyled;
    once a getter is set, the same call returns and styles the controls for
    the phase the getter reports. *)
Theorem registerGameControls_needs_getter
        (controls : GameControl.GameControls) (m : Machine)
        (h : GameControl.Helper) (getter : Machine -> GameState) :
  GameControl.getCurrentGameState h = None ->
  let failed := GameControl.registerGameControls controls m h in
  let ok := GameControl.registerGameControls
              controls m (GameControl.setGameStateGetter getter (snd failed)) in
  fst failed = Threw (TypeError "getCurrentGameState is not a function") /\
  GameControl.currentControls (snd failed) = controls /\
  GameControl.logged (snd failed) = GameControl.logged h /\
  fst ok = Returned tt /\
  snd ok =
  GameControl.updateControlsForState
    (getter m) (GameControl.mkHelper controls (Some getter) (GameControl.logged h)).
Proof.
  destruct h as [c g log]. cbn [GameControl.getCurrentGameState]. intros ->.
  cbn. repeat split; reflexivity.
Qed.

(** X23.  [resetControls] removes every listener of every control that is
    present and resets the scale of the cups, but leaves event mode, cursor,
    alpha and [interactive] of every control as they were, and keeps the
    controls registered; it commutes with [updateControlsForState]. *)
Theorem resetControls_keeps_styles (h : GameControl.Helper) :
  let before := GameControl.currentControls h in
  let after := GameControl.currentControls (GameControl.resetControls h) in
  GameControl.allOf unlistened (GameControl.betButtons after) /\
  unlistened (GameControl.playButton after) /\
  GameControl.allOf unlistened (GameControl.cups after) /\
  option_map (map (option_map styleOf)) (GameControl.betButtons after) =
  option_map (map (option_map styleOf)) (GameControl.betButtons before) /\
  option_map styleOf (GameControl.playButton after) =
  option_map styleOf (GameControl.playButton before) /\
  option_map (map (option_map styleOf)) (GameControl.cups after) =
  option_map (map (option_map styleOf)) (GameControl.cups before) /\
  option_map (map (option_map scale)) (GameControl.cups after) =
  option_map (map (option_map (fun _ => (1%float, 1%float))))
             (GameControl.cups before) /\
  forall state,
    GameControl.currentControls
      (GameControl.resetControls (GameControl.updateControlsForState state h)) =
    GameControl.currentControls
      (GameControl.updateControlsForState state (GameControl.resetControls h)).
Proof.
  assert (Hmap : forall (A : Type) (f g : Control -> A) (k : Control -> Control),
             (forall c, f (k c) = g c) ->
             forall l : list (option Control),
               map (option_map f) (map (option_map k) l) =
               map (option_map g) l).
  { intros A f g k Hfk l. rewrite map_map. apply map_ext.
    intros [c |]; cbn; [now rewrite Hfk | reflexivity]. }
  assert (Hun : forall (k : Control -> Control),
             (forall c, listeners (k c) = []) ->
             forall l : list (option Control),
               Forall unlistened (map (option_map k) l)).
  { intros k Hk l. induction l as [| [c |] l IH]; cbn; constructor;
      try exact IH; cbn; auto. }
  assert (Hcomm : forall (k f : Control -> Control),
             (forall c, k (f c) = f (k c)) ->
             forall l : list (option Control),
               map (option_map k) (map (option_map f) l) =
               map (option_map f) (map (option_map k) l)).
  { intros k f Hkf l. rewrite !map_map. apply map_ext.
    intros [c |]; cbn; [now rewrite Hkf | reflexivity]. }
  destruct h as [[bets play cups] getter log]. cbv zeta.
  unfold GameControl.resetControls.
  cbn [GameControl.currentControls GameControl.betButtons
       GameControl.playButton GameControl.cups].
  split; [| split; [| split; [| split; [| split; [| split; [| split]]]]]].
  - destruct bets as [l |]; cbn; [| exact I].
    apply Hun. intros [em cur al int ls sc]. reflexivity.
  - destruct play as [[em cur al int ls sc] |]; cbn; auto.
  - destruct cups as [l |]; cbn; [| exact I].
    apply (Hun (fun cup => set_scale 1%float 1%float
                                     (removeAllListeners None cup))).
    intros [em cur al int ls sc]. reflexivity.
  - destruct bets as [l |]; cbn; [| reflexivity]. f_equal.
    apply Hmap. intros [em cur al int ls sc]. reflexivity.
  - destruct play as [[em cur al int ls sc] |]; reflexivity.
  - destruct cups as [l |]; cbn; [| reflexivity]. f_equal.
    apply (Hmap _ styleOf styleOf
                (fun cup => set_scale 1%float 1%float
                                      (removeAllListeners None cup))).
    intros [em cur al int ls sc]. reflexivity.
  - destruct cups as [l |]; cbn; [| reflexivity]. f_equal.
    rewrite !map_map. apply map_ext.
    intros [[em cur al int ls sc] |]; reflexivity.
  - assert (Hce : forall c, removeAllListeners None (GameControl.enableControl c)
                            = GameControl.enableControl
                                (removeAllListeners None c))
      by (intros [em cur al int ls sc]; reflexivity).
    assert (Hcd : forall c, removeAllListeners None (GameControl.disableControl c)
                            = GameControl.disableControl
                                (removeAllListeners None c))
      by (intros [em cur al int ls sc]; reflexivity).
    assert (Hse : forall c,
               set_scale 1%float 1%float
                         (removeAllListeners None (GameControl.enableControl c))
               = GameControl.enableControl
                   (set_scale 1%float 1%float (removeAllListeners None c)))
      by (intros [em cur al int ls sc]; reflexivity).
    assert (Hsd : forall c,
               set_scale 1%float 1%float
                         (removeAllListeners None (GameControl.disableControl c))
               = GameControl.disableControl
                   (set_scale 1%float 1%float (removeAllListeners None c)))
      by (intros [em cur al int ls sc]; reflexivity).
    intro state.
    destruct bets as [bets |], play as [[em cur al int ls sc] |],
             cups as [cups |];
      destruct state; cbn;
      rewrite ?(Hcomm _ _ Hce), ?(Hcomm _ _ Hcd);
      rewrite ?(Hcomm (fun cup => set_scale 1%float 1%float
                                            (removeAllListeners None cup))
                      GameControl.enableControl Hse),
              ?(Hcomm (fun cup => set_scale 1%float 1%float
                                            (removeAllListeners None cup))
                      GameControl.disableControl Hsd);
      reflexivity.
Qed.

(** X24.  The two UI modules agree on which controls accept pointer events:
    registering the components of [stateManager.ts] with the control helper,
    with the phase getter of [state.ts], switches on exactly the controls
    that [updateUIStates] switches on in the same session.  They style a
    switched-off play button differently, though: event mode "none" and
    alpha 0.5 by [updateUIStates], "passive" and 0.6 by the helper. *)
Theorem ui_helpers_agree
        (env : Env) (m : Machine) (c : StateManager.UIComponents)
        (h : GameControl.Helper) :
  let registered :=
    GameControl.registerGameControls
      (asGameControls c) m
      (GameControl.setGameStateGetter (fun m0 => gamestate (rgs m0)) h) in
  exists c' log,
    exec env (StateManager.updateUIStates c) m = mkRun (Returned (c', log)) m [] /\
    fst registered = Returned tt /\
    onPattern (GameControl.currentControls (snd registered)) =
    onPattern (asGameControls c') /\
    (StateManager.playEnabled log = false ->
     (eventMode (StateManager.playButton c'),
      alpha (StateManager.playButton c')) = ("none"%string, 0.5%float) /\
     option_map (fun b => (eventMode b, alpha b))
                (GameControl.playButton
                   (GameControl.currentControls (snd registered))) =
     Some ("passive"%string, 0.6%float)).
Proof.
  assert (Hcups : forall (b : bool) (cups : list Control),
             map (option_map switchedOn)
                 (map (option_map (if b then GameControl.enableControl
                                   else GameControl.disableControl))
                      (map Some cups)) =
             map (option_map switchedOn)
                 (map Some (StateManager.setCupsEnabled cups b))).
  { intros b cups. unfold StateManager.setCupsEnabled. rewrite !map_map.
    apply map_ext. intros [em cur al int ls sc]. destruct b; reflexivity. }
  cbv zeta. eexists. eexists. split; [apply updateUIStates_run |].
  destruct h as [c0 g0 log0].
  destruct c as [[em1 cur1 al1 int1 ls1 sc1] [em2 cur2 al2 int2 ls2 sc2]
                   [em3 cur3 al3 int3 ls3 sc3] cups].
  unfold GameControl.registerGameControls, GameControl.setGameStateGetter,
    asGameControls, onPattern, GameControl.updateControlsForState.
  cbn [GameControl.getCurrentGameState GameControl.currentControls
       GameControl.logged GameControl.betButtons GameControl.playButton
       GameControl.cups StateManager.betMinusButton
       StateManager.betPlusButton StateManager.playButton
       StateManager.cupSprites StateManager.playEnabled fst snd].
  split; [reflexivity |].
  destruct (gamestate (rgs m));
    cbn [GameState_eqb GameControl.currentControls GameControl.betButtons
         GameControl.playButton GameControl.cups
         GameControl.enableControls GameControl.disableControls
         GameControl.enableButton GameControl.disableButton option_map].
  - split; [| intro H; discriminate H].
    rewrite (Hcups false). reflexivity.
  - split; [rewrite (Hcups false); reflexivity |].
    intros _. split; reflexivity.
  - split; [rewrite (Hcups true); reflexivity |].
    intros _. split; reflexivity.
  - split; [rewrite (Hcups false); reflexivity |].
    intros _. split; reflexivity.
Qed.

(* ================================================================== *)
(** ** The further theorems at the sample inputs *)

Lemma no_pick_never_settles_witness :
  let r := handleGameRound sampleIsActiveBetError plainOptions serverWins
                           [3; 7] initialMachine in
  outcome r = Pending /\
  rgs (final r) =
  mkSession playing (Some winResponse) None
            (balance (rgs initialMachine) - 1)%float
            (lastWinOf 1%float winResponse) /\
  chosenIdx (final r) = None /\
  Forall (fun b => b = true) (cupInteractive (final r)) /\
  onRestCalls (trace (final r)) = onRestCalls (trace initialMachine).
Proof.
  apply (@no_pick_never_settles sampleIsActiveBetError plainOptions serverWins
                                initialMachine winResponse [3; 7]
                                eq_refl eq_refl eq_refl).
  cbn. repeat constructor.
Defined.

Lemma finalize_failure_never_settles_witness :
  let r := handleGameRound sampleIsActiveBetError plainOptions serverCannotEnd
                           [1; 2] initialMachine in
  outcome r = Pending /\
  gamestate (rgs (final r)) = playing /\
  balance (rgs (final r)) = (balance (rgs initialMachine) - 1)%float /\
  finalizeCalls (trace (final r)) = finalizeCalls (trace initialMachine) + 1 /\
  onRestCalls (trace (final r)) = onRestCalls (trace initialMachine) /\
  balanceUpdates (trace (final r)) = balanceUpdates (trace initialMachine).
Proof.
  apply (@finalize_failure_never_settles
           sampleIsActiveBetError plainOptions serverCannotEnd initialMachine
           (ApiRejection "ECONNRESET"%string) 1 [2] eq_refl eq_refl eq_refl).
  - cbn. lia.
  - left. split; [reflexivity |]. exists winResponse.
    split; reflexivity.
Defined.

Lemma skipped_start_is_a_loss_witness :
  let m := withEntropy [0; 0; 2] initialMachine in
  let r := handleGameRound sampleIsActiveBetError skippingOptions serverWins
                           [0; 1] m in
  outcome r = Returned tt /\
  rgs (final r) = onRest skippingOptions (rgs m) /\
  playRoundCalls (trace (final r)) = playRoundCalls (trace m) /\
  finalizeCalls (trace (final r)) = finalizeCalls (trace m) /\
  reveals (trace (final r)) = reveals (trace m) ++ [2] /\
  2 <> 0.
Proof.
  apply (@skipped_start_is_a_loss
           sampleIsActiveBetError skippingOptions serverWins
           (withEntropy [0; 0; 2] initialMachine) 0 [1] 0 2 [0; 2] []
           eq_refl eq_refl).
  - cbn. lia.
  - reflexivity.
  - reflexivity.
  - cbn. lia.
Defined.

Lemma forced_end_skips_reveal_witness :
  let r := handleGameRound sampleIsActiveBetError forcedOptions serverWins
                           [1] initialMachine in
  outcome r = Returned tt /\
  rgs (final r) =
  onRest forcedOptions
         (mkSession rest (Some winResponse) (Some confirmation5)
                    (toNumber (amount (Types.balance confirmation5)) / 1000000)%float
                    (lastWinOf 1%float winResponse)) /\
  filter isAnimation (trace (final r)) =
  filter isAnimation (trace initialMachine) /\
  winReports (trace (final r)) = winReports (trace initialMachine) /\
  finalizeCalls (trace (final r)) = finalizeCalls (trace initialMachine) + 1 /\
  balanceUpdates (trace (final r)) =
  balanceUpdates (trace initialMachine) ++ [amount (Types.balance confirmation5)].
Proof.
  apply (@forced_end_skips_reveal
           sampleIsActiveBetError forcedOptions serverWins initialMachine
           winResponse confirmation5 1 [] eq_refl eq_refl eq_refl eq_refl
           eq_refl).
  cbn. lia.
Defined.

Lemma recovery_reports_confirmed_balance_witness :
  let r := handleGameRound sampleIsActiveBetError plainOptions serverHasOpenBet
                           [2] initialMachine in
  outcome r = Returned tt /\
  balanceUpdates (trace (final r)) =
  balanceUpdates (trace initialMachine) ++ [amount (Types.balance confirmation5)] /\
  rgs (final r) =
  onRest plainOptions
         (mkSession rest (response (rgs initialMachine)) (Some confirmation5)
                    (toNumber (amount (Types.balance confirmation5)) / 1000000)%float
                    (lastWin (rgs initialMachine))).
Proof.
  apply (@recovery_reports_confirmed_balance
           sampleIsActiveBetError plainOptions serverHasOpenBet initialMachine
           (ApiRejection "ERR_IPB"%string) confirmation5 2 []
           eq_refl eq_refl eq_refl eq_refl eq_refl).
  cbn. lia.
Defined.

Lemma win_round_session_witness :
  (let r := handleGameRound sampleIsActiveBetError plainOptions serverWins
                            [1; 2; 0] initialMachine in
   outcome r = Returned tt /\
   rgs (final r) =
   mkSession rest (Some winResponse) (Some confirmation5) 5%float 0.6%float /\
   balanceUpdates (trace (final r)) = [Num 5000000%float] /\
   winReports (trace (final r)) = [0.6%float] /\
   onRestCalls (trace (final r)) = 1) /\
  (let r := handleGameRound sampleIsActiveBetError plainOptions
                            serverConfirmsNull [1; 2; 0] initialMachine in
   outcome r = Returned tt /\
   rgs (final r) =
   mkSession playing (Some winResponse) (Some confirmationNull) 0%float
             0.6%float /\
   balanceUpdates (trace (final r)) = [Null] /\
   winReports (trace (final r)) = [0.6%float] /\
   onRestCalls (trace (final r)) = 1).
Proof.
  split.
  - destruct (@win_round_session
                sampleIsActiveBetError plainOptions serverWins initialMachine
                winResponse confirmation5 1 [2; 0]
                eq_refl eq_refl eq_refl eq_refl eq_refl eq_refl)
      as [Hout [Hrgs [Hbal [Hwin Hrest]]]]; [cbn; lia |].
    split; [exact Hout |]. split; [rewrite Hrgs; reflexivity |].
    split; [exact Hbal |]. split; [exact Hwin | exact Hrest].
  - destruct (@win_round_session
                sampleIsActiveBetError plainOptions serverConfirmsNull
                initialMachine winResponse confirmationNull 1 [2; 0]
                eq_refl eq_refl eq_refl eq_refl eq_refl eq_refl)
      as [Hout [Hrgs [Hbal [Hwin Hrest]]]]; [cbn; lia |].
    split; [exact Hout |]. split; [rewrite Hrgs; reflexivity |].
    split; [exact Hbal |]. split; [exact Hwin | exact Hrest].
Defined.

Lemma failed_start_rejects_witness :
  let r := handleGameRound sampleIsActiveBetError plainOptions serverDown
                           [0; 1] initialMachine in
  outcome r = Threw (ApiRejection "ECONNRESET"%string) /\
  rgs (final r) =
  mkSession rest (response (rgs initialMachine))
            (endRoundResponse (rgs initialMachine))
            (balance (rgs initialMachine) - 1)%float
            (lastWin (rgs initialMachine)) /\
  cupInteractive (final r) = cupInteractive initialMachine /\
  chosenIdx (final r) = chosenIdx initialMachine /\
  selections (trace (final r)) = selections (trace initialMachine) /\
  onRestCalls (trace (final r)) = onRestCalls (trace initialMachine).
Proof.
  exact (@failed_start_rejects
           sampleIsActiveBetError plainOptions serverDown initialMachine
           (ApiRejection "ECONNRESET"%string) [0; 1]
           eq_refl eq_refl eq_refl eq_refl).
Defined.

Lemma round_after_a_loss_witness :
  let m := withEntropy [0; 0; 2] initialMachine in
  let lost := handleGameRound sampleIsActiveBetError plainOptions serverLoses
                              [0; 1] m in
  let next := handleGameRound sampleIsActiveBetError plainOptions serverLoses
                              [2] (final lost) in
  let again := exec serverLoses
                    (handleGameRound_setup sampleIsActiveBetError plainOptions)
                    (final next) in
  outcome lost = Returned tt /\
  outcome next = Threw (Error "Cannot start play from state: playing") /\
  playRoundCalls (trace (final next)) = playRoundCalls (trace (final lost)) /\
  rgs (final next) =
  mkSession rest (Some lossResponse) None (balance (rgs m) - 1)%float
            (lastWinOf 1%float lossResponse) /\
  outcome again = Returned (Some lossResponse, false) /\
  balance (rgs (final again)) = (balance (rgs m) - 1 - 1)%float.
Proof.
  apply (@round_after_a_loss
           sampleIsActiveBetError plainOptions serverLoses
           (withEntropy [0; 0; 2] initialMachine) lossResponse 0 [1] [2]
           0 2 [0; 2] []
           eq_refl eq_refl (fun s => eq_refl) eq_refl eq_refl eq_refl eq_refl).
  - cbn. lia.
  - reflexivity.
  - reflexivity.
  - cbn. lia.
Defined.

Lemma ui_gate_during_pick_wait_witness :
  let m0 := final (exec serverWins
                        (handleGameRound_setup sampleIsActiveBetError plainOptions)
                        initialMachine) in
  Forall (fun b => b = true) (cupInteractive m0) /\
  exists c' log,
    exec serverWins (StateManager.updateUIStates sampleComponents) m0 =
    mkRun (Returned (c', log)) m0 [] /\
    StateManager.cupsEnabled log = false /\
    StateManager.playEnabled log = false /\
    StateManager.betEnabled log = false /\
    switchedOn (StateManager.playButton c') = false /\
    Forall (fun cup => interactive cup = false /\ switchedOn cup = false)
           (StateManager.cupSprites c').
Proof.
  exact (@ui_gate_during_pick_wait
           sampleIsActiveBetError plainOptions serverWins initialMachine
           winResponse sampleComponents eq_refl eq_refl eq_refl).
Defined.

Lemma registerGameControls_needs_getter_witness :
  let controls := asGameControls sampleComponents in
  let failed := GameControl.registerGameControls
                  controls initialMachine GameControl.initialHelper in
  let ok := GameControl.registerGameControls
              controls initialMachine
              (GameControl.setGameStateGetter (fun m => gamestate (rgs m))
                                              (snd failed)) in
  fst failed = Threw (TypeError "getCurrentGameState is not a function") /\
  GameControl.currentControls (snd failed) = controls /\
  GameControl.logged (snd failed) = GameControl.logged GameControl.initialHelper /\
  fst ok = Returned tt /\
  snd ok =
  GameControl.updateControlsForState
    (gamestate (rgs initialMachine))
    (GameControl.mkHelper controls (Some (fun m => gamestate (rgs m)))
                          (GameControl.logged GameControl.initialHelper)).
Proof.
  exact (@registerGameControls_needs_getter
           (asGameControls sampleComponents) initialMachine
           GameControl.initialHelper (fun m => gamestate (rgs m)) eq_refl).
Defined.
